(** * Texas Hold'em winning engine: the equity simulation of [poker_logic.py]

    A shallow embedding of [card_str_to_deuces_card], [get_hand_strength]
    and [run_simulation], with the third-party card library the module
    imports ([Card], [Deck], [Evaluator]) modelled from the specification,
    and the properties of the simulation proved over it. *)

From Stdlib Require Import ZArith String Ascii PrimFloat Uint63 SpecFloat FloatOps.
From stdpp Require Import base decidable countable list sorting gmap strings.

Local Open Scope Z_scope.

(** ** Card model *)

(** Modelled from the spec: the card library is not part of the sources.
    A card is a rank and a suit; exactly 52 cards exist and equality is by
    rank and suit. *)
Inductive rank :=
  | R2 | R3 | R4 | R5 | R6 | R7 | R8 | R9 | RT | RJ | RQ | RK | RA.

Inductive suit := Spades | Hearts | Diamonds | Clubs.

Record card := Card { card_rank : rank; card_suit : suit }.

#[global] Instance rank_eq_dec : EqDecision rank.
Proof. solve_decision. Defined.
#[global] Instance suit_eq_dec : EqDecision suit.
Proof. solve_decision. Defined.
#[global] Instance card_eq_dec : EqDecision card.
Proof. solve_decision. Defined.

Definition all_ranks : list rank :=
  [R2; R3; R4; R5; R6; R7; R8; R9; RT; RJ; RQ; RK; RA].
Definition all_suits : list suit := [Spades; Hearts; Diamonds; Clubs].

(** Numeric value of a rank, 2 for the deuce up to 14 for the ace. *)
Definition rank_value (r : rank) : Z :=
  match r with
  | R2 => 2 | R3 => 3 | R4 => 4 | R5 => 5 | R6 => 6 | R7 => 7 | R8 => 8
  | R9 => 9 | RT => 10 | RJ => 11 | RQ => 12 | RK => 13 | RA => 14
  end.

Definition suit_index (s : suit) : Z :=
  match s with Spades => 0 | Hearts => 1 | Diamonds => 2 | Clubs => 3 end.

(** Modelled from the spec: [int(card)], the compact integer form of a card
    used as its hash; distinct cards have distinct integers. *)
Definition card_int (c : card) : Z :=
  4 * rank_value (card_rank c) + suit_index (card_suit c).

(** Modelled from the spec: [Deck.GetFullDeck], the 52 cards in a fixed
    canonical order. *)
Definition full_deck : list card :=
  r ← all_ranks; s ← all_suits; [Card r s].

Definition card_of_int (z : Z) : card :=
  default (Card R2 Spades)
    (find (fun c => bool_decide (card_int c = z)) full_deck).

#[global] Instance card_countable : Countable card.
Proof.
  refine (inj_countable' card_int card_of_int _).
  intros [r s]; destruct r, s; reflexivity.
Defined.

(** ** Exceptions and the error monad *)

(** The exceptions the two entry points can raise, one constructor per
    [raise] site of [poker_logic.py] and per failure of the library calls. *)
Inductive error :=
  | InvalidCardFormat (card_str : string) (* ValueError, line 11 *)
  | InvalidCard (card_str : string)       (* ValueError, line 15 *)
  | HoleCardsNotTwo                       (* ValueError, line 31 *)
  | CommunityNotZeroToFive                (* ValueError, line 38 *)
  | DuplicateCard (card_s : string)       (* ValueError, lines 81 and 91 *)
  | TooManyCommunityCards                 (* ValueError, line 96 *)
  | DeckExhaustedHands                    (* Exception, line 121 *)
  | DeckExhaustedCommunity                (* Exception, line 129 *)
  | InvalidHandSize (n : nat)             (* raised by the evaluator *)
  | DuplicateCardInHand                   (* raised by the evaluator *)
  | MinOfEmptySequence                    (* ValueError of [min], line 136 *)
  | ZeroDivision.                         (* ZeroDivisionError, line 148 *)

Inductive result (A : Type) :=
  | Ok (a : A)
  | Raise (e : error).
Arguments Ok {A} a.
Arguments Raise {A} e.

#[global] Instance result_ret : MRet result := fun A a => Ok a.
#[global] Instance result_bind : MBind result := fun A B f m =>
  match m with
  | Ok a => f a
  | Raise e => Raise e
  end.
#[global] Instance result_fmap : FMap result := fun A B f m =>
  match m with
  | Ok a => Ok (f a)
  | Raise e => Raise e
  end.

Definition is_Ok {A} (m : result A) : Prop := ∃ a, m = Ok a.

(** The errors that report a wrong number of cards in a hand. *)
Definition hand_size_error (e : error) : Prop :=
  e = HoleCardsNotTwo ∨ e = CommunityNotZeroToFive ∨ ∃ n, e = InvalidHandSize n.

(** ** Running counters and the reported percentages *)

(** One entry of [player_results]: the dict [{'wins': w, 'ties': t}]. *)
Record counters := Counters { wins : Z; ties : Z }.

(** One entry of [final_results]: the two percentages, Python floats
    (IEEE 754 binary64). *)
Record percentages := Percentages { wins_pct : float; ties_pct : float }.

(** Conversion of a Python int to a float, as in [x * 100] for a float
    [x]: the nearest binary64 number, ties to even, for an int of any
    size. *)
Definition float_of_Z (z : Z) : float :=
  match z with
  | Z0 => SF2Prim (S754_zero false)
  | Zpos m => SF2Prim (binary_normalize prec emax (Zpos m) 0 false)
  | Zneg m => SF2Prim (binary_normalize prec emax (Zneg m) 0 true)
  end.

(** A Python int as an unrounded binary number. *)
Definition spec_of_Z (z : Z) : spec_float :=
  match z with
  | Z0 => S754_zero false
  | Zpos m => S754_finite false m 0
  | Zneg m => S754_finite true m 0
  end.

(** [a / b] of Python on two ints, for [b] other than zero: the quotient of
    the two ints, of any size, rounded once to the nearest binary64 number,
    ties to even. A quotient beyond the largest float, on which Python
    raises [OverflowError], does not arise from a count and its number of
    trials. *)
Definition int_true_div (a b : Z) : float :=
  SF2Prim (SFdiv prec emax (spec_of_Z a) (spec_of_Z b)).

(** [(count / num_simulations) * 100] of lines 148 and 149, for a divisor
    other than zero. *)
Definition float_percentage (count num_simulations : Z) : float :=
  PrimFloat.mul (int_true_div count num_simulations) (float_of_Z 100).

(** The same with Python's division by zero. *)
Definition percentage (count num_simulations : Z) : result float :=
  if num_simulations =? 0 then Raise ZeroDivision
  else Ok (float_percentage count num_simulations).

(** The entry of [final_results] for the counters of one player. *)
Definition percentages_of (num_simulations : Z) (res : counters) : percentages :=
  Percentages (float_percentage (wins res) num_simulations)
              (float_percentage (ties res) num_simulations).

(** Sum of the wins of all players. *)
Definition total_wins (player_results : list counters) : Z :=
  foldr (fun res acc => wins res + acc) 0 player_results.

(** Python's [range(n)] runs [n] times, and not at all for [n <= 0]. *)
Definition range_len (n : Z) : nat := Z.to_nat n.

(** ** Subsets of a hand *)

(** The [k]-element subsets of a list, as subsequences in the order of the
    list. *)
Fixpoint combinations {A} (k : nat) (l : list A) : list (list A) :=
  match k, l with
  | O, _ => [[]]
  | S _, [] => []
  | S k', x :: l' => map (cons x) (combinations k' l') ++ combinations k l'
  end.

(** All subsequences of a list, used for the brute-force oracle. *)
Fixpoint subsequences {A} (l : list A) : list (list A) :=
  match l with
  | [] => [[]]
  | x :: l' => map (cons x) (subsequences l') ++ subsequences l'
  end.

(** Python's [min] of a list of ints. *)
Definition py_min (scores : list Z) : result Z :=
  match scores with
  | [] => Raise MinOfEmptySequence
  | s :: rest => Ok (foldl Z.min s rest)
  end.

(** Known cards after validation: the locals [player_hands_deuces_initial],
    [community_cards_deuces_initial] and [known_cards_deuces] of
    [run_simulation] when its trial loop starts. *)
Record known := Known {
  player_hands_deuces_initial : list (list card);
  community_cards_deuces_initial : list card;
  known_cards_deuces : gset card
}.

Definition add_win (res : counters) : counters :=
  Counters (wins res + 1) (ties res).
Definition add_tie (res : counters) : counters :=
  Counters (wins res) (ties res + 1).

(** ** A concrete card library, for running the engine on examples *)

(** Modelled from the spec: [Card.new], which is not part of the sources.
    A card text is one rank character from 23456789TJQKA followed by one suit
    character from shdc, upper or lower case. *)
Definition rank_of_char (a : ascii) : option rank :=
  match a with
  | "2" => Some R2 | "3" => Some R3 | "4" => Some R4 | "5" => Some R5
  | "6" => Some R6 | "7" => Some R7 | "8" => Some R8 | "9" => Some R9
  | "T" | "t" => Some RT | "J" | "j" => Some RJ | "Q" | "q" => Some RQ
  | "K" | "k" => Some RK | "A" | "a" => Some RA
  | _ => None
  end%char.

Definition suit_of_char (a : ascii) : option suit :=
  match a with
  | "s" | "S" => Some Spades | "h" | "H" => Some Hearts
  | "d" | "D" => Some Diamonds | "c" | "C" => Some Clubs
  | _ => None
  end%char.

Definition parse_card (card_str : string) : option card :=
  match card_str with
  | String r (String s EmptyString) =>
      r' ← rank_of_char r; s' ← suit_of_char s; Some (Card r' s')
  | _ => None
  end.

(** Number of cards of rank value [r] among the rank values [rs]. *)
Definition rank_count (rs : list Z) (r : Z) : Z :=
  Z.of_nat (length (filter (eq r) rs)).

(** The rank values of a hand, the most frequent rank first and the higher
    rank first among equally frequent ones: the order in which the tie-break
    rules compare them. *)
Definition rank_weight (rs : list Z) (r : Z) : Z := 100 * rank_count rs r + r.

Definition heavier (rs : list Z) (a b : Z) : Prop :=
  rank_weight rs b ≤ rank_weight rs a.

#[global] Instance heavier_dec rs a b : Decision (heavier rs a b).
Proof. unfold heavier. apply _. Defined.

Definition ranks_by_weight (rs : list Z) : list Z := merge_sort (heavier rs) rs.

Definition is_flush (cards : list card) : bool :=
  match cards with
  | [] => false
  | c :: rest => forallb (fun c' => bool_decide (card_suit c' = card_suit c)) rest
  end.

(** The highest rank of the straight the five rank values form, if any; the
    wheel A-2-3-4-5 is a straight whose highest rank is 5. *)
Definition straight_high (rs : list Z) : option Z :=
  let sorted := merge_sort Z.ge rs in
  match sorted with
  | [a; b; c; d; e] =>
      if bool_decide (b = a - 1 ∧ c = a - 2 ∧ d = a - 3 ∧ e = a - 4) then Some a
      else if bool_decide (sorted = [14; 5; 4; 3; 2]) then Some 5
      else None
  | _ => None
  end.

Definition encode_ranks (rs : list Z) : Z :=
  foldl (fun acc r => 15 * acc + r) 0 rs.

Definition category_size : Z := 15 ^ 5.

(** Modelled from the spec: the score of five cards, lower for the stronger
    hand. The category comes first (0 for a straight flush down to 8 for a
    high card) and the tie-break ranks of the category follow. *)
Definition poker_five_score (cards : list card) : Z :=
  let rs := ranks_by_weight (rank_value ∘ card_rank <$> cards) in
  let count_at i := rank_count rs (default 0 (rs !! i)) in
  let '(category, tiebreak) :=
    match straight_high rs with
    | Some high =>
        (if is_flush cards then 0 else 4, encode_ranks [high; 0; 0; 0; 0])
    | None =>
        ((if count_at 0%nat =? 4 then 1
          else if count_at 0%nat =? 3 then (if count_at 3%nat =? 2 then 2 else 5)
          else if is_flush cards then 3
          else if count_at 0%nat =? 2 then (if count_at 2%nat =? 2 then 6 else 7)
          else 8), encode_ranks rs)
    end in
  category * category_size + (category_size - 1 - tiebreak).

(** Modelled from the spec: the category of a score, 1 for a straight flush
    up to 9 for a high card, and its label. *)
Definition poker_rank_class (score : Z) : Z := score / category_size + 1.

Definition poker_class_to_string (c : Z) : string :=
  match c with
  | 1 => "Straight Flush" | 2 => "Four of a Kind" | 3 => "Full House"
  | 4 => "Flush" | 5 => "Straight" | 6 => "Three of a Kind"
  | 7 => "Two Pair" | 8 => "Pair" | _ => "High Card"
  end.

(** A deck order that starts with the given cards: one of the orders that
    shuffling can produce when the given cards are distinct. *)
Definition deck_starting_with (front : list card) : list card :=
  front ++ filter (fun c => c ∉ front) full_deck.

(** ** The engine, over the library functions it calls *)

Section Engine.

(** [Card.new]: the card a two-character text denotes, [None] where the
    library raises. *)
Variable Card_new : string → option card.
(** The evaluator's score of exactly five cards; lower is stronger. *)
Variable five_card_score : list card → Z.
(** [Evaluator.get_rank_class] and [Evaluator.class_to_string]. *)
Variable get_rank_class : Z → Z.
Variable class_to_string : Z → string.

Local Set Default Proof Using "Type".

(** Lines 6 to 15. *)
Definition card_str_to_deuces_card (card_str : string) : result card :=
  if bool_decide (card_str = "") || negb (String.length card_str =? 2)%nat
  then Raise (InvalidCardFormat card_str)
  else match Card_new card_str with
       | Some c => Ok c
       | None => Raise (InvalidCard card_str)
       end.

(** The subset kept after looking at every candidate: a later subset
    replaces the current one only when it scores strictly lower. *)
Definition best_subset (first : list card) (others : list (list card))
  : list card :=
  foldl (fun best s =>
           if five_card_score s <? five_card_score best then s else best)
        first others.

(** Modelled from the spec: [Evaluator.evaluate], which is not part of
    the sources. It concatenates its two arguments; five cards are scored
    directly; for six or seven cards every five-card subset is scored and
    the lowest score is returned; any other number of cards fails with
    [InvalidHandSize], and two equal cards with [DuplicateCardInHand]. *)
Definition evaluate (cards board : list card) : result Z :=
  let all_cards := cards ++ board in
  let n := length all_cards in
  if bool_decide (n = 5 ∨ n = 6 ∨ n = 7)%nat then
    if bool_decide (NoDup all_cards) then
      if bool_decide (n = 5%nat) then Ok (five_card_score all_cards)
      else match combinations 5 all_cards with
           | [] => Raise (InvalidHandSize n)
           | s :: rest => Ok (five_card_score (best_subset s rest))
           end
    else Raise DuplicateCardInHand
  else Raise (InvalidHandSize n).

(** The list comprehensions of lines 41 and 42. *)
Fixpoint parse_cards (card_strs : list string) : result (list card) :=
  match card_strs with
  | [] => Ok []
  | c :: rest =>
      card_d ← card_str_to_deuces_card c;
      cards ← parse_cards rest;
      Ok (card_d :: cards)
  end.

(** Lines 17 to 55. *)
Definition get_hand_strength (hole_cards_str community_cards_str : list string)
  : result (Z * string) :=
  if bool_decide (hole_cards_str = [])
     || negb (length hole_cards_str =? 2)%nat
  then Raise HoleCardsNotTwo
  else if negb (length community_cards_str <=? 5)%nat
  then Raise CommunityNotZeroToFive
  else
    hole_cards_deuces ← parse_cards hole_cards_str;
    community_cards_deuces ← parse_cards community_cards_str;
    score ← evaluate community_cards_deuces hole_cards_deuces;
    Ok (score, class_to_string (get_rank_class score)).

(** The loop over the texts of one hand (lines 76 to 83) and over the
    community texts (lines 87 to 93): empty texts are skipped, every other
    text is converted, checked against the known set and recorded. *)
Fixpoint add_known_cards (card_strs : list string) (known_cards : gset card)
  : result (list card * gset card) :=
  match card_strs with
  | [] => Ok ([], known_cards)
  | card_s :: rest =>
      if bool_decide (card_s = "") then add_known_cards rest known_cards
      else
        card_d ← card_str_to_deuces_card card_s;
        if bool_decide (card_d ∈ known_cards) then Raise (DuplicateCard card_s)
        else
          '(cards, known') ← add_known_cards rest ({[card_d]} ∪ known_cards);
          Ok (card_d :: cards, known')
  end.

(** Lines 72 to 84: [count] iterations of the loop over [p_idx]. A player
    whose index is past the end of the list, or whose entry is empty, gets
    the empty hand. *)
Fixpoint read_player_hands (player_hands_str_initial : list (list string))
    (p_idx count : nat) (known_cards : gset card)
  : result (list (list card) * gset card) :=
  match count with
  | O => Ok ([], known_cards)
  | S count' =>
      '(hand_deuces, known1) ←
        add_known_cards (default [] (player_hands_str_initial !! p_idx))
                        known_cards;
      '(hands, known2) ←
        read_player_hands player_hands_str_initial (S p_idx) count' known1;
      Ok (hand_deuces :: hands, known2)
  end.

(** Lines 68 to 96: everything [run_simulation] does before its first
    trial. *)
Definition validate (player_hands_str_initial : list (list string))
    (community_cards_str_initial : list string) (num_total_players : Z)
  : result known :=
  '(hands, known1) ←
    read_player_hands player_hands_str_initial 0
                      (range_len num_total_players) ∅;
  '(community, known2) ← add_known_cards community_cards_str_initial known1;
  if (5 <? length community)%nat then Raise TooManyCommunityCards
  else Ok (Known hands community known2).

(** Lines 101 to 108: the shuffled deck without the known cards. *)
Definition restrict_deck (known_cards : gset card) (cards : list card)
  : list card :=
  let known_card_ints : gset Z := set_map card_int known_cards in
  filter (fun card_in_deck => card_int card_in_deck ∉ known_card_ints) cards.

(** [while len(cards) < target: cards.append(deck.draw(1))] for a list that
    is [missing] cards short of its target: it draws from the front of the
    deck [missing] times, and raises [e] when the deck is empty. *)
Fixpoint draw_missing (missing : nat) (cards deck : list card) (e : error)
  : result (list card * list card) :=
  match missing with
  | O => Ok (cards, deck)
  | S missing' =>
      match deck with
      | [] => Raise e
      | drawn_card_obj :: deck' =>
          draw_missing missing' (cards ++ [drawn_card_obj]) deck' e
      end
  end.

(** Lines 114 to 121. *)
Fixpoint deal_hands (hands : list (list card)) (deck : list card)
  : result (list (list card) * list card) :=
  match hands with
  | [] => Ok ([], deck)
  | hand :: rest =>
      '(hand', deck1) ←
        draw_missing (2 - length hand) hand deck DeckExhaustedHands;
      '(rest', deck2) ← deal_hands rest deck1;
      Ok (hand' :: rest', deck2)
  end.

(** Lines 124 to 129. *)
Definition deal_community (community deck : list card)
  : result (list card * list card) :=
  draw_missing (5 - length community) community deck DeckExhaustedCommunity.

(** Lines 99 to 129: the cards of one trial, from the shuffled deck that
    [Deck()] returned: every player's hole cards, the board and the rest of
    the deck. *)
Definition deal_trial (v : known) (shuffled : list card)
  : result (list (list card) * list card * list card) :=
  let sim_deck := restrict_deck (known_cards_deuces v) shuffled in
  '(sim_player_hands, deck1) ←
    deal_hands (player_hands_deuces_initial v) sim_deck;
  '(sim_community_cards, deck2) ←
    deal_community (community_cards_deuces_initial v) deck1;
  Ok (sim_player_hands, sim_community_cards, deck2).

(** Lines 131 to 134. *)
Fixpoint score_players (sim_community_cards : list card)
    (sim_player_hands : list (list card)) : result (list Z) :=
  match sim_player_hands with
  | [] => Ok []
  | hand :: rest =>
      score ← evaluate sim_community_cards hand;
      scores ← score_players sim_community_cards rest;
      Ok (score :: scores)
  end.

(** Line 137. *)
Definition winners_of (player_scores : list Z) (min_score : Z) : list nat :=
  (filter (fun p => p.2 = min_score) (imap pair player_scores)).*1.

(** Lines 139 to 143. *)
Definition record_outcome (winners : list nat) (player_results : list counters)
  : list counters :=
  match winners with
  | [winner] => alter add_win winner player_results
  | _ => foldl (fun res winner_idx => alter add_tie winner_idx res)
               player_results winners
  end.

(** Lines 136 to 143. *)
Definition score_trial (player_scores : list Z) (player_results : list counters)
  : result (list counters) :=
  min_score ← py_min player_scores;
  Ok (record_outcome (winners_of player_scores min_score) player_results).

(** One iteration of the loop of line 98. *)
Definition simulate_trial (v : known) (shuffled : list card)
    (player_results : list counters) : result (list counters) :=
  '(sim_player_hands, sim_community_cards, _) ← deal_trial v shuffled;
  player_scores ← score_players sim_community_cards sim_player_hands;
  score_trial player_scores player_results.

(** The loop of line 98. The randomness is explicit: [shuffles k] is the
    order of the deck that the [k]-th call of [Deck()] returns. The second
    component of the result counts the trials started. *)
Fixpoint run_trials (shuffles : nat → list card) (v : known)
    (todo started : nat) (player_results : list counters)
  : result (list counters) * nat :=
  match todo with
  | O => (Ok player_results, started)
  | S todo' =>
      match simulate_trial v (shuffles started) player_results with
      | Ok player_results' =>
          run_trials shuffles v todo' (S started) player_results'
      | Raise e => (Raise e, S started)
      end
  end.

(** Lines 145 to 150. *)
Fixpoint final_results (player_results : list counters) (num_simulations : Z)
  : result (list percentages) :=
  match player_results with
  | [] => Ok []
  | res :: rest =>
      w ← percentage (wins res) num_simulations;
      t ← percentage (ties res) num_simulations;
      rest' ← final_results rest num_simulations;
      Ok (Percentages w t :: rest')
  end.

(** Lines 61 to 152. The result comes with the number of trials started. *)
Definition run_simulation (player_hands_str_initial : list (list string))
    (community_cards_str_initial : list string)
    (num_total_players num_simulations : Z) (shuffles : nat → list card)
  : result (list percentages) * nat :=
  match validate player_hands_str_initial community_cards_str_initial
                 num_total_players with
  | Raise e => (Raise e, O)
  | Ok v =>
      let player_results :=
        replicate (range_len num_total_players) (Counters 0 0) in
      match run_trials shuffles v (range_len num_simulations) O
                       player_results with
      | (Ok counts, started) => (final_results counts num_simulations, started)
      | (Raise e, started) => (Raise e, started)
      end
  end.

(** ** Vocabulary of the statements *)

(** The entry of player [p_idx], empty past the end of the list, and the
    texts that [run_simulation] reads: for each of the [num_total_players]
    players the non-empty texts of the entry, then the non-empty community
    texts. *)
Definition entry_of (player_hands_str_initial : list (list string))
    (p_idx : nat) : list string :=
  default [] (player_hands_str_initial !! p_idx).

Definition stated (card_strs : list string) : list string :=
  filter (fun card_s => card_s ≠ "") card_strs.

Definition player_texts (player_hands_str_initial : list (list string))
    (p_idx count : nat) : list (list string) :=
  (fun p => stated (entry_of player_hands_str_initial p)) <$> seq p_idx count.

Definition known_texts (player_hands_str_initial : list (list string))
    (community_cards_str_initial : list string) (num_total_players : Z)
  : list string :=
  concat (player_texts player_hands_str_initial 0 (range_len num_total_players))
  ++ stated community_cards_str_initial.

(** The card of a text, when the conversion succeeds. *)
Definition text_card (card_s : string) : option card :=
  match card_str_to_deuces_card card_s with
  | Ok c => Some c
  | Raise _ => None
  end.

Definition texts_cards (card_strs : list string) : list card :=
  omap text_card card_strs.

Definition valid_text (card_s : string) : Prop :=
  is_Some (text_card card_s).

(** Hole cards still to be drawn for the given known hands. *)
Definition hole_cards_missing (hands : list (list card)) : nat :=
  sum_list ((fun hand => 2 - length hand)%nat <$> hands).

(** Pascal's triangle: the number of [k]-element subsets of [n] cards. *)
Fixpoint choose (n k : nat) : nat :=
  match k, n with
  | O, _ => 1
  | S _, O => 0
  | S k', S n' => choose n' k' + choose n' k
  end.

(** The brute-force oracle for a hand: the minimum of the five-card scores
    over all its subsequences of length five. *)
Definition five_card_subsets (all_cards : list card) : list (list card) :=
  filter (fun subset => length subset = 5%nat) (subsequences all_cards).

Definition brute_force_score (all_cards : list card) : result Z :=
  py_min (five_card_score <$> five_card_subsets all_cards).


(** The counters [after] some trials, against the counters [before]: no
    counter went down, every player gained at most [k] wins and ties
    together, and all players together gained at most [k] wins. *)
Definition advanced (k : Z) (before after : list counters) : Prop :=
  Forall2 (fun res res' =>
             wins res ≤ wins res' ∧ ties res ≤ ties res'
             ∧ wins res' + ties res' ≤ wins res + ties res + k)
          before after
  ∧ total_wins before ≤ total_wins after ≤ total_wins before + k.


(** Sum of the ties of all players. *)
Definition total_ties (player_results : list counters) : Z :=
  foldr (fun res acc => ties res + acc) 0 player_results.

(** The counters [after] [k] trials among [players] players, against the
    counters [before]: some [w] of the trials were won by a single player
    and each of the other [k - w] gave a tie to at least two players and at
    most all of them. *)
Definition tallied (k players : Z) (before after : list counters) : Prop :=
  ∃ w, 0 ≤ w ≤ k
       ∧ total_wins after = total_wins before + w
       ∧ total_ties before + 2 * (k - w) ≤ total_ties after
       ∧ total_ties after ≤ total_ties before + players * (k - w).


(** ** The deck *)

Lemma full_deck_NoDup : NoDup full_deck.
Proof. apply (bool_decide_unpack _). vm_compute. exact I. Qed.

Lemma full_deck_complete (c : card) : c ∈ full_deck.
Proof.
  destruct c as [r s]; destruct r, s; apply (bool_decide_unpack _); vm_compute;
    exact I.
Qed.

Lemma card_int_inj : Inj (=) (=) card_int.
Proof.
  intros [r1 s1] [r2 s2]; unfold card_int; simpl.
  destruct r1, r2, s1, s2; simpl; intros H; try reflexivity; lia.
Qed.

Lemma restrict_deck_filter (known_cards : gset card) (cards : list card) :
  restrict_deck known_cards cards = filter (fun c => c ∉ known_cards) cards.
Proof.
  unfold restrict_deck. apply list_filter_iff. intros c.
  rewrite elem_of_map. split.
  - intros Hn Hc. apply Hn. eauto.
  - intros Hn (c' & Heq & Hc'). apply card_int_inj in Heq. congruence.
Qed.

Lemma restrict_deck_spec (known_cards : gset card) (shuffled : list card) :
  shuffled ≡ₚ full_deck →
  NoDup (restrict_deck known_cards shuffled)
  ∧ (∀ c, c ∈ restrict_deck known_cards shuffled ↔ c ∉ known_cards)
  ∧ restrict_deck known_cards shuffled
      ≡ₚ filter (fun c => c ∉ known_cards) full_deck
  ∧ (length (restrict_deck known_cards shuffled) + size known_cards = 52)%nat.
Proof.
  clear get_rank_class five_card_score class_to_string Card_new.
  intros Hp. rewrite restrict_deck_filter.
  assert (Hnd : NoDup shuffled) by (rewrite Hp; apply full_deck_NoDup).
  split_and!.
  - by apply NoDup_filter.
  - intros c. rewrite list_elem_of_filter, Hp.
    pose proof (full_deck_complete c). tauto.
  - by rewrite Hp.
  - pose proof (filter_app_complement (fun c => c ∉ known_cards) full_deck) as Hc.
    apply Permutation_length in Hc. rewrite length_app in Hc.
    change (length full_deck) with 52%nat in Hc. rewrite Hp, <- Hc. f_equal.
    change (size known_cards) with (length (elements known_cards)).
    apply Permutation_length, NoDup_Permutation.
    + apply NoDup_elements.
    + apply NoDup_filter, full_deck_NoDup.
    + intros c. rewrite elem_of_elements, list_elem_of_filter.
      pose proof (full_deck_complete c).
      destruct (decide (c ∈ known_cards)); tauto.
Qed.

(** ** Reading the known cards *)

Lemma bind_Ok {A B} (m : result A) (f : A → result B) (b : B) :
  m ≫= f = Ok b ↔ ∃ a, m = Ok a ∧ f a = Ok b.
Proof.
  destruct m as [a|e]; simpl; split.
  - eauto.
  - by intros (a' & [= ->] & ?).
  - discriminate.
  - by intros (a' & [=] & ?).
Qed.

Lemma text_card_Some (card_s : string) (c : card) :
  text_card card_s = Some c ↔ card_str_to_deuces_card card_s = Ok c.
Proof.
  unfold text_card. destruct (card_str_to_deuces_card card_s); split; congruence.
Qed.

Lemma text_card_nonempty (card_s : string) : valid_text card_s → card_s ≠ "".
Proof. intros [c Hc] ->. by vm_compute in Hc. Qed.

Lemma stated_nonempty (card_strs : list string) :
  Forall (fun card_s => card_s ≠ "") (stated card_strs).
Proof. apply Forall_forall. intros s. unfold stated. by rewrite list_elem_of_filter; intros []. Qed.

Lemma stated_idemp (card_strs : list string) :
  stated (stated card_strs) = stated card_strs.
Proof.
  unfold stated. induction card_strs as [|s l IH]; [done|].
  destruct (decide (s ≠ "")).
  - rewrite (filter_cons_True _ _ l) by done. rewrite filter_cons_True by done.
    by rewrite IH.
  - by rewrite filter_cons_False.
Qed.

Lemma add_known_cards_stated (card_strs : list string) (known_cards : gset card) :
  add_known_cards card_strs known_cards
  = add_known_cards (stated card_strs) known_cards.
Proof.
  revert known_cards. unfold stated.
  induction card_strs as [|s l IH]; intros known_cards; [done|].
  simpl. destruct (decide (s = "")) as [->|Hs].
  - rewrite filter_cons_False by tauto. apply IH.
  - rewrite bool_decide_eq_false_2 by done.
    rewrite filter_cons_True by done. simpl.
    rewrite bool_decide_eq_false_2 by done.
    destruct (card_str_to_deuces_card s); simpl; [|done].
    case_bool_decide; [done|]. by rewrite IH.
Qed.

Lemma add_known_cards_app (l1 l2 : list string) (known_cards : gset card) :
  add_known_cards (l1 ++ l2) known_cards
  = '(c1, k1) ← add_known_cards l1 known_cards;
    '(c2, k2) ← add_known_cards l2 k1;
    Ok (c1 ++ c2, k2).
Proof.
  revert known_cards. induction l1 as [|s l IH]; intros known_cards; simpl.
  - by destruct (add_known_cards l2 known_cards) as [[??]|].
  - case_bool_decide; [apply IH|].
    destruct (card_str_to_deuces_card s); simpl; [|done].
    case_bool_decide; [done|]. rewrite IH.
    destruct (add_known_cards l _) as [[c1 k1]|]; simpl; [|done].
    by destruct (add_known_cards l2 k1) as [[??]|].
Qed.

(** What a successful reading returns: the cards of the stated texts, all
    new and distinct, added to the known set. *)
Lemma add_known_cards_Ok (card_strs : list string) (known_cards : gset card)
    (cards : list card) (known' : gset card) :
  add_known_cards card_strs known_cards = Ok (cards, known') ↔
  Forall valid_text (stated card_strs)
  ∧ cards = texts_cards (stated card_strs)
  ∧ NoDup cards
  ∧ (∀ c, c ∈ cards → c ∉ known_cards)
  ∧ known' = list_to_set cards ∪ known_cards.
Proof.
  rewrite add_known_cards_stated.
  pose proof (stated_nonempty card_strs) as Hne.
  revert Hne known_cards cards known'.
  induction (stated card_strs) as [|s l IH]; intros Hne known_cards cards known'.
  { simpl. split.
    - intros [= <- <-]. split_and!; [done|done|constructor|set_solver|set_solver].
    - intros (_ & -> & _ & _ & ->). unfold texts_cards; simpl. f_equal. f_equal.
      set_solver. }
  apply Forall_cons in Hne as [Hs Hne]. simpl.
  rewrite bool_decide_eq_false_2 by done.
  unfold texts_cards; simpl. rewrite Forall_cons.
  destruct (card_str_to_deuces_card s) as [c|e] eqn:Hcs; simpl.
  2:{ split; [done|]. intros ([[c Hc] _] & _).
      apply text_card_Some in Hc. congruence. }
  assert (Htc : text_card s = Some c) by by apply text_card_Some.
  rewrite Htc.
  case_bool_decide as Hin.
  { split; [done|]. intros (_ & -> & _ & Hd & _). destruct (Hd c); [left|done]. }
  rewrite bind_Ok. split.
  - intros ([cs k] & Hrec & [= <- <-]). apply IH in Hrec as (Hv & -> & Hnd & Hd & ->); [|done].
    split_and!; [by eexists|done|done| |set_solver|set_solver].
    apply NoDup_cons. split; [|done]. intros Hc. apply Hd in Hc. set_solver.
  - intros ([_ Hv] & -> & Hnd & Hd & ->). apply NoDup_cons in Hnd as [Hc Hnd].
    exists (omap text_card l, list_to_set (omap text_card l) ∪ ({[c]} ∪ known_cards)).
    split.
    + apply IH; [done|]. split_and!; [done|done|done| |done].
      intros c' Hc'. specialize (Hd c'). set_solver.
    + f_equal. f_equal. set_solver.
Qed.


Lemma stated_id (card_strs : list string) :
  Forall (fun card_s => card_s ≠ "") card_strs → stated card_strs = card_strs.
Proof.
  unfold stated. induction 1 as [|s l Hs _ IH]; [done|].
  rewrite filter_cons_True by done. by rewrite IH.
Qed.

Lemma stated_app (l1 l2 : list string) :
  stated (l1 ++ l2) = stated l1 ++ stated l2.
Proof. apply filter_app. Qed.

Lemma texts_cards_app (l1 l2 : list string) :
  texts_cards (l1 ++ l2) = texts_cards l1 ++ texts_cards l2.
Proof. apply omap_app. Qed.

Lemma texts_cards_length (card_strs : list string) :
  Forall valid_text card_strs →
  length (texts_cards card_strs) = length card_strs.
Proof.
  unfold texts_cards. induction 1 as [|s l [c Hc] _ IH]; [done|].
  simpl. rewrite Hc. simpl. f_equal. exact IH.
Qed.

(** The first text whose card is already known stops the reading with the
    duplicate-card error that names this text. *)
Lemma add_known_cards_duplicate (pre post : list string) (known_cards : gset card) :
  Forall valid_text pre →
  ¬ NoDup (texts_cards pre) ∨ (∃ c, c ∈ texts_cards pre ∧ c ∈ known_cards) →
  ∃ pre' card_s post' c,
    pre = pre' ++ card_s :: post'
    ∧ text_card card_s = Some c
    ∧ (c ∈ known_cards ∨ c ∈ texts_cards pre')
    ∧ add_known_cards (pre ++ post) known_cards = Raise (DuplicateCard card_s).
Proof.
  intros Hv. revert known_cards.
  induction Hv as [|s pre [c Hc] Hv IH]; intros known_cards Hdup.
  { destruct Hdup as [Hdup|(c & Hc & _)].
    - destruct Hdup. constructor.
    - by apply elem_of_nil in Hc. }
  assert (Hs : s ≠ "") by (apply text_card_nonempty; by exists c).
  pose proof Hc as Hcs. apply text_card_Some in Hcs.
  simpl. rewrite bool_decide_eq_false_2 by done. rewrite Hcs. simpl.
  case_bool_decide as Hin.
  { exists [], s, pre, c. split_and!; [done|done|by left|done]. }
  unfold texts_cards in Hdup; simpl in Hdup. rewrite Hc in Hdup.
  fold (texts_cards pre) in Hdup.
  destruct (IH ({[c]} ∪ known_cards)) as (pre' & s' & post' & c' & -> & Hc' & Hseen & Hres).
  { destruct (decide (c ∈ texts_cards pre)) as [Hcp|Hcp].
    { right. exists c. set_solver. }
    destruct Hdup as [Hdup|(c0 & Hc0 & Hk)].
    - left. intros Hnd. apply Hdup. by apply NoDup_cons.
    - right. exists c0. apply elem_of_cons in Hc0 as [->|Hc0]; [done|]. set_solver. }
  exists (s :: pre'), s', post', c'. split_and!; [done|done| |].
  - unfold texts_cards; simpl. rewrite Hc. fold (texts_cards pre'). set_solver.
  - by rewrite Hres.
Qed.

Lemma player_texts_S (player_hands_str_initial : list (list string))
    (p_idx count : nat) :
  player_texts player_hands_str_initial p_idx (S count)
  = stated (entry_of player_hands_str_initial p_idx)
    :: player_texts player_hands_str_initial (S p_idx) count.
Proof. reflexivity. Qed.

Lemma read_player_hands_Ok (player_hands_str_initial : list (list string))
    (p_idx count : nat) (known_cards : gset card)
    (hands : list (list card)) (known' : gset card) :
  read_player_hands player_hands_str_initial p_idx count known_cards
    = Ok (hands, known') →
  hands = texts_cards <$> player_texts player_hands_str_initial p_idx count.
Proof.
  revert p_idx known_cards hands known'.
  induction count as [|count IH]; intros p_idx known_cards hands known'.
  { by intros [= <- <-]. }
  simpl. rewrite bind_Ok. intros ([hand k1] & Hhand & Hrest).
  apply bind_Ok in Hrest as ([hs k2] & Hrest & [= <- <-]).
  apply add_known_cards_Ok in Hhand as (_ & -> & _).
  apply IH in Hrest as ->. reflexivity.
Qed.

Lemma read_player_hands_flat (player_hands_str_initial : list (list string))
    (p_idx count : nat) (known_cards : gset card) :
  (fun r => (concat r.1, r.2))
    <$> read_player_hands player_hands_str_initial p_idx count known_cards
  = add_known_cards
      (concat (player_texts player_hands_str_initial p_idx count)) known_cards.
Proof.
  revert p_idx known_cards.
  induction count as [|count IH]; intros p_idx known_cards; [done|].
  rewrite player_texts_S. simpl concat. rewrite add_known_cards_app.
  rewrite <- add_known_cards_stated. simpl. fold (entry_of player_hands_str_initial p_idx).
  destruct (add_known_cards _ known_cards) as [[hand k1]|]; simpl; [|done].
  rewrite <- IH.
  by destruct (read_player_hands _ _ _ k1) as [[hs k2]|].
Qed.

Lemma known_texts_nonempty (player_hands_str_initial : list (list string))
    (community_cards_str_initial : list string) (num_total_players : Z) :
  Forall (fun card_s => card_s ≠ "")
    (known_texts player_hands_str_initial community_cards_str_initial
                 num_total_players).
Proof.
  unfold known_texts. apply Forall_app. split; [|apply stated_nonempty].
  apply Forall_concat, Forall_fmap, Forall_forall. intros p _.
  apply stated_nonempty.
Qed.

(** The whole validation in closed form: a single reading of the known
    texts, followed by the check of the number of community cards. *)
Lemma validate_flat (player_hands_str_initial : list (list string))
    (community_cards_str_initial : list string) (num_total_players : Z) :
  validate player_hands_str_initial community_cards_str_initial
           num_total_players
  = match add_known_cards
            (known_texts player_hands_str_initial community_cards_str_initial
                         num_total_players) ∅ with
    | Raise e => Raise e
    | Ok (_, known_cards) =>
        let community := texts_cards (stated community_cards_str_initial) in
        if (5 <? length community)%nat then Raise TooManyCommunityCards
        else Ok (Known
                   (texts_cards
                      <$> player_texts player_hands_str_initial 0
                            (range_len num_total_players))
                   community known_cards)
    end.
Proof.
  unfold validate, known_texts. rewrite add_known_cards_app.
  rewrite <- read_player_hands_flat.
  destruct (read_player_hands _ _ _ _) as [[hs k1]|] eqn:Hhs; simpl; [|done].
  apply read_player_hands_Ok in Hhs as ->.
  rewrite <- add_known_cards_stated.
  destruct (add_known_cards community_cards_str_initial k1)
    as [[cc k2]|] eqn:Hcc; simpl; [|done].
  by apply add_known_cards_Ok in Hcc as (_ & -> & _).
Qed.


Lemma texts_cards_concat (l : list (list string)) :
  texts_cards (concat l) = concat (texts_cards <$> l).
Proof.
  induction l as [|x l IH]; [done|]. simpl.
  by rewrite texts_cards_app, IH.
Qed.

(** What a successful validation has checked and what it hands to the
    trials. *)
Lemma validate_Ok (player_hands_str_initial : list (list string))
    (community_cards_str_initial : list string) (num_total_players : Z)
    (v : known) :
  validate player_hands_str_initial community_cards_str_initial
           num_total_players = Ok v ↔
  Forall valid_text
    (known_texts player_hands_str_initial community_cards_str_initial
                 num_total_players)
  ∧ NoDup (texts_cards
             (known_texts player_hands_str_initial community_cards_str_initial
                          num_total_players))
  ∧ (length (texts_cards (stated community_cards_str_initial)) ≤ 5)%nat
  ∧ v = Known (texts_cards
                 <$> player_texts player_hands_str_initial 0
                       (range_len num_total_players))
              (texts_cards (stated community_cards_str_initial))
              (list_to_set
                 (texts_cards
                    (known_texts player_hands_str_initial
                       community_cards_str_initial num_total_players))).
Proof.
  rewrite validate_flat.
  set (texts := known_texts player_hands_str_initial
                  community_cards_str_initial num_total_players).
  pose proof (known_texts_nonempty player_hands_str_initial
                community_cards_str_initial num_total_players) as Hne.
  fold texts in Hne.
  destruct (add_known_cards texts ∅) as [[cs k]|e] eqn:Hr.
  - apply add_known_cards_Ok in Hr as (Hv & -> & Hnd & _ & ->).
    rewrite (stated_id texts) in * by done. simpl.
    destruct (Nat.ltb_spec 5 (length (texts_cards (stated community_cards_str_initial)))).
    + split; [done|]. intros (_ & _ & ? & _). lia.
    + split.
      * intros [= <-]. split_and!; [done|done|done|].
        by rewrite union_empty_r_L.
      * intros (_ & _ & _ & ->). by rewrite union_empty_r_L.
  - split; [done|]. intros (Hv & Hnd & _).
    assert (add_known_cards texts ∅
            = Ok (texts_cards texts, list_to_set (texts_cards texts) ∪ ∅))
      as Hok; [|congruence].
    apply add_known_cards_Ok. rewrite (stated_id texts) by done.
    split_and!; [done|done|done| |done].
    intros c _. apply not_elem_of_empty.
Qed.

Lemma validate_Ok_cards (player_hands_str_initial : list (list string))
    (community_cards_str_initial : list string) (num_total_players : Z)
    (v : known) :
  validate player_hands_str_initial community_cards_str_initial
           num_total_players = Ok v →
  NoDup (concat (player_hands_deuces_initial v)
         ++ community_cards_deuces_initial v)
  ∧ (∀ c, c ∈ known_cards_deuces v ↔
          c ∈ concat (player_hands_deuces_initial v)
              ++ community_cards_deuces_initial v)
  ∧ length (player_hands_deuces_initial v) = range_len num_total_players
  ∧ (length (community_cards_deuces_initial v) ≤ 5)%nat.
Proof.
  intros Hv. apply validate_Ok in Hv. destruct Hv as (_ & Hnd & Hlen & ->). simpl.
  unfold known_texts in *. rewrite texts_cards_app, texts_cards_concat in Hnd.
  split_and!.
  - done.
  - intros c.
    by rewrite elem_of_list_to_set, texts_cards_app, texts_cards_concat.
  - unfold player_texts. by rewrite !length_fmap, length_seq.
  - done.
Qed.

(** ** Dealing *)

Lemma draw_missing_spec (missing : nat) (cards deck : list card) (e : error) :
  draw_missing missing cards deck e
  = if decide (missing ≤ length deck)%nat
    then Ok (cards ++ take missing deck, drop missing deck)
    else Raise e.
Proof.
  revert cards deck. induction missing as [|m IH]; intros cards deck.
  - cbn [draw_missing]. rewrite decide_True by lia.
    by rewrite take_0, drop_0, app_nil_r.
  - destruct deck as [|c deck]; cbn [draw_missing].
    + rewrite decide_False; [done|simpl; lia].
    + rewrite IH. cbn [take drop length]. rewrite <- app_assoc.
      destruct (decide (m ≤ length deck)%nat).
      * by rewrite decide_True by lia.
      * by rewrite decide_False by lia.
Qed.

Lemma deal_hands_spec (hands : list (list card)) (deck : list card) :
  match deal_hands hands deck with
  | Ok (hands', deck') =>
      ∃ drawn,
        Forall2 (fun hand d => length d = (2 - length hand)%nat) hands drawn
        ∧ hands' = zip_with app hands drawn
        ∧ deck = concat drawn ++ deck'
  | Raise e =>
      e = DeckExhaustedHands ∧ (length deck < hole_cards_missing hands)%nat
  end.
Proof.
  revert deck. induction hands as [|hand rest IH]; intros deck.
  { exists []. by split_and!. }
  cbn [deal_hands]. rewrite draw_missing_spec.
  unfold hole_cards_missing. cbn [fmap list_fmap sum_list sum_list_with].
  fold (hole_cards_missing rest).
  destruct (decide (2 - length hand ≤ length deck)%nat) as [Hle|Hgt]; simpl.
  2:{ split; [done|lia]. }
  specialize (IH (drop (2 - length hand) deck)).
  destruct (deal_hands rest _) as [[rest' deck2]|e]; simpl.
  - destruct IH as (drawn & HF & -> & Hdeck).
    exists (take (2 - length hand) deck :: drawn). split_and!.
    + constructor; [|done]. rewrite length_take. lia.
    + done.
    + simpl. by rewrite <- app_assoc, <- Hdeck, take_drop.
  - destruct IH as [-> Hlt]. split; [done|].
    rewrite length_drop in Hlt. lia.
Qed.

Lemma drawn_hands_length (hands drawn : list (list card)) :
  Forall2 (fun hand d => length d = (2 - length hand)%nat) hands drawn →
  length (concat drawn) = hole_cards_missing hands.
Proof.
  unfold hole_cards_missing.
  induction 1 as [|hand d hands drawn Hd _ IH]; [done|].
  simpl. rewrite length_app, Hd. f_equal. exact IH.
Qed.

Lemma concat_zip_with_app (hands drawn : list (list card)) :
  length hands = length drawn →
  concat (zip_with app hands drawn) ≡ₚ concat hands ++ concat drawn.
Proof.
  revert drawn. induction hands as [|hand hands IH]; intros [|d drawn] [=]; [done|].
  simpl. rewrite IH by done. rewrite <- !app_assoc. f_equiv.
  rewrite !app_assoc. f_equiv. apply Permutation_app_comm.
Qed.

(** One trial's dealing, in closed form. *)
Lemma deal_trial_spec (v : known) (shuffled : list card) :
  match deal_trial v shuffled with
  | Ok (sim_player_hands, sim_community_cards, rest) =>
      ∃ drawn_hands drawn_community,
        Forall2 (fun hand d => length d = (2 - length hand)%nat)
                (player_hands_deuces_initial v) drawn_hands
        ∧ length drawn_community
          = (5 - length (community_cards_deuces_initial v))%nat
        ∧ sim_player_hands
          = zip_with app (player_hands_deuces_initial v) drawn_hands
        ∧ sim_community_cards
          = community_cards_deuces_initial v ++ drawn_community
        ∧ restrict_deck (known_cards_deuces v) shuffled
          = concat drawn_hands ++ drawn_community ++ rest
  | Raise e =>
      (e = DeckExhaustedHands ∨ e = DeckExhaustedCommunity)
      ∧ (length (restrict_deck (known_cards_deuces v) shuffled)
         < hole_cards_missing (player_hands_deuces_initial v)
           + (5 - length (community_cards_deuces_initial v)))%nat
  end.
Proof.
  unfold deal_trial, deal_community.
  pose proof (deal_hands_spec (player_hands_deuces_initial v)
                (restrict_deck (known_cards_deuces v) shuffled)) as Hh.
  destruct (deal_hands _ _) as [[hs deck1]|e]; simpl.
  2:{ destruct Hh as [-> Hlt]. split; [by left|lia]. }
  destruct Hh as (drawn & HF & -> & Hdeck).
  rewrite draw_missing_spec.
  pose proof (drawn_hands_length _ _ HF) as Hlen.
  destruct (decide (_ ≤ length deck1)%nat) as [Hle|Hgt]; simpl.
  - exists drawn, (take (5 - length (community_cards_deuces_initial v)) deck1).
    split_and!; [done| |done|done|].
    + rewrite length_take. lia.
    + by rewrite take_drop.
  - split; [by right|]. rewrite Hdeck, length_app. lia.
Qed.



Lemma NoDup_hand_with_board (hands : list (list card)) (board hand : list card) :
  NoDup (concat hands ++ board) → hand ∈ hands → NoDup (board ++ hand).
Proof.
  intros Hnd Hin. apply list_elem_of_split in Hin as (l1 & l2 & ->).
  rewrite concat_app in Hnd. simpl in Hnd.
  assert ((concat l1 ++ hand ++ concat l2) ++ board
          ≡ₚ (board ++ hand) ++ (concat l1 ++ concat l2)) as Hp.
  { rewrite (Permutation_app_comm board hand).
    rewrite (Permutation_app_comm _ board).
    rewrite (Permutation_app_comm hand board).
    rewrite <- !app_assoc. f_equiv.
    rewrite !app_assoc. f_equiv. apply Permutation_app_comm. }
  rewrite Hp in Hnd. by apply NoDup_app in Hnd as [? _].
Qed.

Lemma player_texts_lookup (player_hands_str_initial : list (list string))
    (count p : nat) :
  (p < count)%nat →
  player_texts player_hands_str_initial 0 count !! p
  = Some (stated (entry_of player_hands_str_initial p)).
Proof.
  intros Hp. unfold player_texts.
  by rewrite list_lookup_fmap, lookup_seq_lt.
Qed.

Lemma valid_player_texts (player_hands_str_initial : list (list string))
    (community_cards_str_initial : list string) (num_total_players : Z)
    (p : nat) :
  Forall valid_text
    (known_texts player_hands_str_initial community_cards_str_initial
                 num_total_players) →
  (p < range_len num_total_players)%nat →
  Forall valid_text (stated (entry_of player_hands_str_initial p)).
Proof.
  intros Hv Hp. unfold known_texts in Hv. apply Forall_app in Hv as [Hv _].
  rewrite Forall_concat, Forall_forall in Hv. apply Hv.
  eapply list_elem_of_lookup_2. by apply player_texts_lookup.
Qed.

(** After a successful validation the cards dealt in a trial, the hole cards
    of all players and the board, are pairwise distinct. *)
Lemma dealt_cards_distinct
    (player_hands_str_initial : list (list string))
    (community_cards_str_initial : list string) (num_total_players : Z)
    (v : known) (shuffled : list card)
    (sim_player_hands : list (list card))
    (sim_community_cards rest : list card) :
  validate player_hands_str_initial community_cards_str_initial
           num_total_players = Ok v →
  shuffled ≡ₚ full_deck →
  deal_trial v shuffled = Ok (sim_player_hands, sim_community_cards, rest) →
  NoDup (concat sim_player_hands ++ sim_community_cards).
Proof.
  intros Hval Hperm Hdeal.
  pose proof (validate_Ok_cards _ _ _ _ Hval) as (Hnd & Hknown & _).
  pose proof (restrict_deck_spec (known_cards_deuces v) _ Hperm)
    as (Hdnd & Hdin & _).
  pose proof (deal_trial_spec v shuffled) as Hspec. rewrite Hdeal in Hspec.
  destruct Hspec as (dh & dc & HF & Hdc & -> & -> & Hdeck).
  pose proof (Forall2_length _ _ _ HF) as Hlen2.
  rewrite app_assoc, (Permutation_app_comm _ (community_cards_deuces_initial v)).
  rewrite concat_zip_with_app by done.
  rewrite (app_assoc (community_cards_deuces_initial v)).
  rewrite (Permutation_app_comm (community_cards_deuces_initial v)).
  rewrite <- !app_assoc. rewrite (app_assoc (concat _)).
  rewrite Hdeck, app_assoc in Hdnd. apply NoDup_app in Hdnd as [Hdnd _].
  apply NoDup_app. split_and!; [done| |done].
  intros c Hc Hc'. apply Hknown in Hc. revert Hc. apply Hdin.
  rewrite Hdeck, app_assoc. apply elem_of_app. by left.
Qed.



(** ** Winners and counters *)

Lemma foldl_min_spec (s : Z) (rest : list Z) :
  foldl Z.min s rest ∈ s :: rest
  ∧ ∀ x, x ∈ s :: rest → foldl Z.min s rest ≤ x.
Proof.
  revert s. induction rest as [|y rest IH]; intros s; simpl.
  { split; [left|]. intros x Hx. apply list_elem_of_singleton in Hx. lia. }
  destruct (IH (Z.min s y)) as [Hin Hle]. split.
  - apply elem_of_cons in Hin as [Heq|Hin]; [|by do 2 right].
    rewrite Heq. destruct (Z.min_spec s y) as [[_ ->]|[_ ->]]; [left|right; left].
  - intros x Hx.
    assert (foldl Z.min (Z.min s y) rest ≤ Z.min s y) by (apply Hle; left).
    apply elem_of_cons in Hx as [->|Hx]; [lia|].
    apply elem_of_cons in Hx as [->|Hx]; [lia|]. apply Hle. by right.
Qed.

Lemma winners_of_elem (player_scores : list Z) (min_score : Z) (i : nat) :
  i ∈ winners_of player_scores min_score ↔ player_scores !! i = Some min_score.
Proof.
  unfold winners_of. rewrite list_elem_of_fmap. split.
  - intros ([j s] & -> & Hin). apply list_elem_of_filter in Hin as [Hs Hin].
    apply elem_of_lookup_imap in Hin as (k & y & [= -> ->] & Hk).
    simpl in *. by subst.
  - intros Hi. exists (i, min_score). split; [done|].
    apply list_elem_of_filter. split; [done|].
    apply elem_of_lookup_imap. eauto.
Qed.

Lemma winners_of_NoDup (player_scores : list Z) (min_score : Z) :
  NoDup (winners_of player_scores min_score).
Proof.
  unfold winners_of.
  eapply sublist_NoDup; [|apply fmap_sublist, sublist_filter].
  rewrite fmap_imap.
  rewrite (imap_ext _ (fun j _ => j)) by done.
  rewrite (imap_seq_0 player_scores (fun j => j)).
  rewrite list_fmap_id. apply NoDup_seq.
Qed.

Lemma foldl_add_tie_lookup (winners : list nat) (player_results : list counters)
    (i : nat) :
  NoDup winners →
  foldl (fun res winner_idx => alter add_tie winner_idx res)
        player_results winners !! i
  = if decide (i ∈ winners) then add_tie <$> player_results !! i
    else player_results !! i.
Proof.
  revert player_results. induction winners as [|w ws IH];
    intros player_results Hnd; cbn [foldl].
  { rewrite decide_False; [done|]. apply not_elem_of_nil. }
  apply NoDup_cons in Hnd as [Hw Hnd]. rewrite IH by done.
  destruct (decide (i = w)) as [->|Hne].
  - rewrite decide_False by done. rewrite decide_True by left.
    by rewrite list_lookup_alter_eq.
  - rewrite list_lookup_alter_ne by done.
    destruct (decide (i ∈ ws)).
    + by rewrite decide_True by by right.
    + rewrite decide_False; [done|]. rewrite elem_of_cons. tauto.
Qed.

Lemma foldl_add_tie_length (winners : list nat) (player_results : list counters) :
  length (foldl (fun res winner_idx => alter add_tie winner_idx res)
                player_results winners) = length player_results.
Proof.
  revert player_results. induction winners as [|w ws IH];
    intros player_results; simpl; [done|].
  by rewrite IH, length_alter.
Qed.

Lemma record_outcome_length (winners : list nat) (player_results : list counters) :
  length (record_outcome winners player_results) = length player_results.
Proof.
  unfold record_outcome. destruct winners as [|w [|w' ws]].
  - done.
  - apply length_alter.
  - apply foldl_add_tie_length.
Qed.

Lemma record_outcome_lookup (winners : list nat) (player_results : list counters)
    (i : nat) :
  NoDup winners →
  record_outcome winners player_results !! i
  = if decide (i ∈ winners)
    then (if decide (length winners = 1%nat) then add_win else add_tie)
           <$> player_results !! i
    else player_results !! i.
Proof.
  intros Hnd. unfold record_outcome. destruct winners as [|w [|w' ws]].
  - rewrite decide_False; [done|]. apply not_elem_of_nil.
  - destruct (decide (i = w)) as [->|Hne].
    + rewrite decide_True by left. rewrite decide_True by done.
      by rewrite list_lookup_alter_eq.
    + rewrite list_lookup_alter_ne by done.
      rewrite decide_False; [done|]. by rewrite list_elem_of_singleton.
  - rewrite foldl_add_tie_lookup by done.
    by rewrite (decide_False (P := length _ = 1%nat)) by done.
Qed.

(** C2. The winners of a trial are exactly the players whose score equals
    the minimum of all scores. A single winner gets one more win and nobody's
    ties change; two or more winners each get one more tie, a full one, and
    nobody's wins change. *)
Theorem C2_winners_and_counters (player_scores : list Z)
    (player_results : list counters) :
  player_scores ≠ [] →
  length player_results = length player_scores →
  ∃ min_score player_results',
    py_min player_scores = Ok min_score
    ∧ min_score ∈ player_scores
    ∧ (∀ score, score ∈ player_scores → min_score ≤ score)
    ∧ NoDup (winners_of player_scores min_score)
    ∧ (∀ i, i ∈ winners_of player_scores min_score
            ↔ player_scores !! i = Some min_score)
    ∧ score_trial player_scores player_results = Ok player_results'
    ∧ length player_results' = length player_results
    ∧ ∀ i res,
        player_results !! i = Some res →
        player_results' !! i
        = Some (if decide (player_scores !! i = Some min_score)
                then if decide (length (winners_of player_scores min_score)
                                = 1%nat)
                     then Counters (wins res + 1) (ties res)
                     else Counters (wins res) (ties res + 1)
                else res).
Proof.
  intros Hne Hlen. destruct player_scores as [|s rest]; [done|].
  destruct (foldl_min_spec s rest) as [Hin Hle].
  exists (foldl Z.min s rest),
    (record_outcome (winners_of (s :: rest) (foldl Z.min s rest)) player_results).
  split_and!; [done|done|done|apply winners_of_NoDup|apply winners_of_elem|done
              |apply record_outcome_length|].
  intros i res Hres. rewrite record_outcome_lookup by apply winners_of_NoDup.
  rewrite Hres.
  destruct (decide (i ∈ winners_of _ _)) as [Hw|Hw];
    rewrite winners_of_elem in Hw;
    destruct (decide ((s :: rest) !! i = Some (foldl Z.min s rest)));
    try done.
  by case_decide.
Qed.


(** ** The evaluator on six and seven cards *)

Lemma subsequences_sublist {A} (l s : list A) :
  s ∈ subsequences l ↔ s `sublist_of` l.
Proof.
  revert s. induction l as [|x l IH]; intros s; simpl.
  - rewrite list_elem_of_singleton, sublist_nil_r. done.
  - rewrite elem_of_app, list_elem_of_fmap, sublist_cons_r. split.
    + intros [(s' & -> & Hs')|Hs]; [right|left; by apply IH].
      exists s'. split; [done|by apply IH].
    + intros [Hs|(s' & -> & Hs')]; [right; by apply IH|left].
      exists s'. split; [done|by apply IH].
Qed.

Lemma filter_length_cons {A} (x : A) (j : nat) (ss : list (list A)) :
  filter (fun s => length s = S j) (cons x <$> ss)
  = cons x <$> filter (fun s => length s = j) ss.
Proof.
  induction ss as [|s ss IH]; [done|].
  rewrite fmap_cons. destruct (decide (length s = j)).
  - rewrite (filter_cons_True _ (x :: s)) by (simpl; lia).
    rewrite (filter_cons_True _ s) by done. rewrite IH. reflexivity.
  - rewrite (filter_cons_False _ (x :: s)) by (simpl; lia).
    by rewrite (filter_cons_False _ s) by done.
Qed.

Lemma filter_length_cons_0 {A} (x : A) (ss : list (list A)) :
  filter (fun s => length s = 0%nat) (cons x <$> ss) = [].
Proof.
  induction ss as [|s ss IH]; [done|].
  rewrite fmap_cons. by rewrite filter_cons_False by done.
Qed.

Lemma combinations_subsequences {A} (k : nat) (l : list A) :
  combinations k l = filter (fun s => length s = k) (subsequences l).
Proof.
  revert k. induction l as [|x l IH]; intros k.
  { destruct k; reflexivity. }
  simpl subsequences. rewrite filter_app.
  destruct k as [|k].
  - rewrite filter_length_cons_0. simpl. rewrite <- IH. by destruct l.
  - rewrite filter_length_cons. simpl. by rewrite <- !IH.
Qed.

Lemma combinations_length {A} (k : nat) (l : list A) :
  length (combinations k l) = choose (length l) k.
Proof.
  revert k. induction l as [|x l IH]; intros [|k]; simpl; try done.
  by rewrite length_app, length_fmap, !IH.
Qed.

Lemma best_subset_spec (first : list card) (others : list (list card)) :
  best_subset first others ∈ first :: others
  ∧ five_card_score (best_subset first others)
    = foldl Z.min (five_card_score first) (five_card_score <$> others).
Proof.
  unfold best_subset. revert first.
  induction others as [|s others IH]; intros first; simpl.
  { split; [left|done]. }
  destruct (Z.ltb_spec (five_card_score s) (five_card_score first)).
  - destruct (IH s) as [Hin ->]. split.
    + right. exact Hin.
    + by rewrite Z.min_r by lia.
  - destruct (IH first) as [Hin ->]. split.
    + apply elem_of_cons in Hin as [->|Hin]; [left|by do 2 right].
    + by rewrite Z.min_l by lia.
Qed.

Lemma parse_cards_length (card_strs : list string) (cards : list card) :
  parse_cards card_strs = Ok cards → length cards = length card_strs.
Proof.
  revert cards. induction card_strs as [|s l IH]; intros cards; simpl.
  { by intros [= <-]. }
  rewrite bind_Ok. intros (c & _ & Hrest).
  apply bind_Ok in Hrest as (cs & Hcs & [= <-]). simpl. f_equal. by apply IH.
Qed.

(** The evaluator accepts every hand of seven distinct cards. *)
Lemma evaluate_seven (cards board : list card) :
  length (cards ++ board) = 7%nat → NoDup (cards ++ board) →
  is_Ok (evaluate cards board).
Proof.
  intros Hlen Hnd. unfold evaluate.
  rewrite bool_decide_eq_true_2 by lia.
  rewrite (bool_decide_eq_true_2 (NoDup _)) by done.
  rewrite bool_decide_eq_false_2 by lia.
  pose proof (combinations_length 5 (cards ++ board)) as Hc.
  rewrite Hlen in Hc.
  destruct (combinations 5 (cards ++ board)); [discriminate|by eexists].
Qed.

(** C3. On six or seven distinct cards the evaluation used by
    [get_hand_strength] and by [run_simulation] returns the lowest score of
    all the five-card subsets, 21 of them for seven cards, as the brute-force
    enumeration does, and the category reported is the category of the subset
    that has this score. *)
Theorem C3_best_of_five_card_subsets (community hole : list card) :
  (length (community ++ hole) = 6 ∨ length (community ++ hole) = 7)%nat →
  NoDup (community ++ hole) →
  ∃ best,
    evaluate community hole = Ok (five_card_score best)
    ∧ best `sublist_of` community ++ hole
    ∧ length best = 5%nat
    ∧ (∀ subset,
          subset `sublist_of` community ++ hole → length subset = 5%nat →
          five_card_score best ≤ five_card_score subset)
    ∧ brute_force_score (community ++ hole) = Ok (five_card_score best)
    ∧ length (five_card_subsets (community ++ hole))
      = choose (length (community ++ hole)) 5
    ∧ (length (community ++ hole) = 7%nat →
       length (five_card_subsets (community ++ hole)) = 21%nat)
    ∧ ∀ hole_cards_str community_cards_str,
        parse_cards hole_cards_str = Ok hole →
        parse_cards community_cards_str = Ok community →
        length hole = 2%nat →
        get_hand_strength hole_cards_str community_cards_str
        = Ok (five_card_score best,
              class_to_string (get_rank_class (five_card_score best))).
Proof.
  intros Hlen Hnd.
  assert (length (combinations 5 (community ++ hole))
          = choose (length (community ++ hole)) 5) as Hcount
    by apply combinations_length.
  assert (evaluate community hole
          = match combinations 5 (community ++ hole) with
            | [] => Raise (InvalidHandSize (length (community ++ hole)))
            | s :: rest => Ok (five_card_score (best_subset s rest))
            end) as Heval.
  { unfold evaluate. rewrite bool_decide_eq_true_2 by lia.
    rewrite (bool_decide_eq_true_2 (NoDup _)) by done.
    by rewrite bool_decide_eq_false_2 by lia. }
  destruct (combinations 5 (community ++ hole)) as [|s rest] eqn:Hcomb.
  { exfalso. destruct Hlen as [Hl|Hl]; rewrite Hl in Hcount; discriminate. }
  destruct (best_subset_spec s rest) as [Hin Hscore].
  assert (∀ subset, subset ∈ s :: rest ↔
            subset `sublist_of` community ++ hole ∧ length subset = 5%nat)
    as Hsub.
  { intros subset. rewrite <- Hcomb, combinations_subsequences.
    rewrite list_elem_of_filter, subsequences_sublist. tauto. }
  assert (brute_force_score (community ++ hole)
          = Ok (five_card_score (best_subset s rest))) as Hbrute.
  { unfold brute_force_score, five_card_subsets.
    rewrite <- combinations_subsequences, Hcomb. simpl. by rewrite Hscore. }
  exists (best_subset s rest). split_and!.
  - done.
  - by apply Hsub.
  - by apply Hsub.
  - intros subset Hs1 Hs2. rewrite Hscore.
    destruct (foldl_min_spec (five_card_score s) (five_card_score <$> rest))
      as [_ Hle].
    apply Hle. change (five_card_score subset ∈ five_card_score <$> s :: rest).
    apply list_elem_of_fmap_2. by apply Hsub.
  - done.
  - unfold five_card_subsets. by rewrite <- combinations_subsequences, Hcomb.
  - intros Hl. unfold five_card_subsets.
    by rewrite <- combinations_subsequences, Hcomb, Hcount, Hl.
  - intros hole_cards_str community_cards_str Hhole Hcommunity Hl2.
    unfold get_hand_strength.
    pose proof (parse_cards_length _ _ Hhole) as Hlh.
    pose proof (parse_cards_length _ _ Hcommunity) as Hlc.
    rewrite length_app in Hlen.
    destruct hole_cards_str as [|h1 hs]; [simpl in Hlh; lia|].
    rewrite bool_decide_eq_false_2 by done. rewrite <- Hlh, Hl2. simpl.
    rewrite <- Hlc.
    destruct (Nat.leb_spec (length community) 5) as [_|?]; [|lia]. simpl.
    change (parse_cards (h1 :: hs) ≫= (fun hole_cards_deuces =>
              parse_cards community_cards_str ≫= (fun community_cards_deuces =>
                evaluate community_cards_deuces hole_cards_deuces
                  ≫= (fun score =>
                        Ok (score, class_to_string (get_rank_class score)))))
            = Ok (five_card_score (best_subset s rest),
                  class_to_string
                    (get_rank_class (five_card_score (best_subset s rest))))).
    by rewrite Hhole, Hcommunity; simpl; rewrite Heval.
Qed.


(** ** The whole call *)

(** C4. When a card appears twice among the known cards, and the texts up to
    its second appearance are valid, the call fails with the duplicate-card
    error that names the repeated text, before any trial: no trial is
    started and there is no partial result. *)
Theorem C4_duplicate_known_card_rejected
    (player_hands_str_initial : list (list string))
    (community_cards_str_initial : list string)
    (num_total_players num_simulations : Z) (shuffles : nat → list card)
    (pre post : list string) :
  known_texts player_hands_str_initial community_cards_str_initial
              num_total_players = pre ++ post →
  Forall valid_text pre →
  ¬ NoDup (texts_cards pre) →
  ∃ pre' card_s post' c,
    pre = pre' ++ card_s :: post'
    ∧ text_card card_s = Some c
    ∧ c ∈ texts_cards pre'
    ∧ validate player_hands_str_initial community_cards_str_initial
               num_total_players = Raise (DuplicateCard card_s)
    ∧ run_simulation player_hands_str_initial community_cards_str_initial
                     num_total_players num_simulations shuffles
      = (Raise (DuplicateCard card_s), 0%nat).
Proof.
  intros Htexts Hvalid Hdup.
  destruct (add_known_cards_duplicate pre post ∅ Hvalid)
    as (pre' & card_s & post' & c & Hpre & Hc & Hseen & Hres); [by left|].
  assert (validate player_hands_str_initial community_cards_str_initial
                   num_total_players = Raise (DuplicateCard card_s)) as Hval.
  { by rewrite validate_flat, Htexts, Hres. }
  exists pre', card_s, post', c. split_and!; [done|done| |done|].
  - destruct Hseen as [Hseen|Hseen]; [|done]. by apply not_elem_of_empty in Hseen.
  - unfold run_simulation. by rewrite Hval.
Qed.


Lemma total_wins_alter_add_tie (i : nat) (player_results : list counters) :
  total_wins (alter add_tie i player_results) = total_wins player_results.
Proof.
  revert i. induction player_results as [|res l IH]; intros [|i]; simpl; try done.
  f_equal. apply IH.
Qed.

Lemma total_wins_alter_add_win (i : nat) (player_results : list counters) :
  total_wins player_results ≤ total_wins (alter add_win i player_results)
  ≤ total_wins player_results + 1.
Proof.
  revert i. induction player_results as [|res l IH]; intros [|i];
    unfold total_wins in *; simpl in *; try lia.
  specialize (IH i). change (list_alter add_win i l) with (alter add_win i l). lia.
Qed.

Lemma total_wins_record_outcome (winners : list nat)
    (player_results : list counters) :
  total_wins player_results
  ≤ total_wins (record_outcome winners player_results)
  ≤ total_wins player_results + 1.
Proof.
  assert (∀ ws l,
    total_wins (foldl (fun res winner_idx => alter add_tie winner_idx res) l ws)
    = total_wins l) as Hties.
  { induction ws as [|w ws IH]; intros l; cbn [foldl]; [done|].
    by rewrite IH, total_wins_alter_add_tie. }
  unfold record_outcome. destruct winners as [|w [|w' ws]].
  - simpl. lia.
  - apply total_wins_alter_add_win.
  - rewrite Hties. lia.
Qed.

Lemma record_outcome_advanced (winners : list nat)
    (player_results : list counters) :
  NoDup winners →
  advanced 1 player_results (record_outcome winners player_results).
Proof.
  intros Hnd. split; [|apply total_wins_record_outcome].
  apply Forall2_same_length_lookup_2.
  { by rewrite record_outcome_length. }
  intros i res res' Hres. rewrite record_outcome_lookup, Hres by done.
  destruct (decide (i ∈ winners)); [|intros [= <-]; lia].
  destruct (decide (length winners = 1%nat)); intros [= <-]; simpl; lia.
Qed.

Lemma advanced_refl (player_results : list counters) :
  advanced 0 player_results player_results.
Proof.
  split; [|lia]. apply Forall_Forall2_diag, Forall_forall. intros; lia.
Qed.

Lemma advanced_trans (j k : Z) (l1 l2 l3 : list counters) :
  advanced j l1 l2 → advanced k l2 l3 → advanced (j + k) l1 l3.
Proof.
  intros [H1 H1'] [H2 H2']. split; [|lia].
  eapply Forall2_trans; [|exact H1|exact H2]. simpl. intros; lia.
Qed.

Lemma simulate_trial_advanced (v : known) (shuffled : list card)
    (player_results player_results' : list counters) :
  simulate_trial v shuffled player_results = Ok player_results' →
  advanced 1 player_results player_results'.
Proof.
  unfold simulate_trial. rewrite bind_Ok.
  intros ([[hs cc] rest] & _ & Hscore).
  apply bind_Ok in Hscore as (scores & _ & Htrial).
  unfold score_trial in Htrial.
  apply bind_Ok in Htrial as (min_score & _ & [= <-]).
  apply record_outcome_advanced, winners_of_NoDup.
Qed.

(** The trial loop: when it completes it has started exactly the trials it
    was asked for; when it fails it has started at least one. *)
Lemma run_trials_spec (shuffles : nat → list card) (v : known)
    (todo started : nat) (player_results : list counters) :
  match run_trials shuffles v todo started player_results with
  | (Ok player_results', started') =>
      started' = (started + todo)%nat
      ∧ advanced (Z.of_nat todo) player_results player_results'
  | (Raise e, started') => (started < started' ≤ started + todo)%nat
  end.
Proof.
  revert started player_results.
  induction todo as [|todo IH]; intros started player_results; simpl.
  { split; [lia|apply advanced_refl]. }
  destruct (simulate_trial v (shuffles started) player_results)
    as [player_results1|e] eqn:Htrial; [|lia].
  apply simulate_trial_advanced in Htrial.
  specialize (IH (S started) player_results1).
  destruct (run_trials shuffles v todo (S started) player_results1)
    as [[player_results'|e] started'].
  - destruct IH as [-> Hadv]. split; [lia|].
    replace (Z.of_nat (S todo)) with (1 + Z.of_nat todo) by lia.
    by eapply advanced_trans.
  - lia.
Qed.

Lemma final_results_spec (player_results : list counters) (num_simulations : Z) :
  final_results player_results num_simulations
  = if decide (num_simulations = 0 ∧ player_results ≠ [])
    then Raise ZeroDivision
    else Ok (percentages_of num_simulations <$> player_results).
Proof.
  clear get_rank_class class_to_string Card_new.
  destruct (decide (num_simulations = 0)) as [->|Hne].
  - destruct player_results as [|res l].
    + by rewrite decide_False by (by intros [_ ?]).
    + by rewrite decide_True.
  - rewrite decide_False by tauto.
    induction player_results as [|res l IH]; simpl; [done|].
    unfold percentage. rewrite (proj2 (Z.eqb_neq _ _)) by done. simpl.
    by rewrite IH.
Qed.

Lemma total_wins_replicate (n : nat) : total_wins (replicate n (Counters 0 0)) = 0.
Proof.
  induction n as [|n IH]; [done|]. exact IH.
Qed.

(** C5 as the code has it. A call that completes returns one entry per
    player, in the players' order: entry [i] holds
    [wins_i / num_simulations * 100] and [ties_i / num_simulations * 100],
    computed in floating point from the counters of player [i] at the end of
    the trial loop. These counters are not negative, the wins and ties of a
    player together are at most the number of trials, and so are the wins of
    all players together; the bound of 100 holds for the exact quotients,
    not for their floating-point sums. *)
Theorem C5_percentages_from_counters
    (player_hands_str_initial : list (list string))
    (community_cards_str_initial : list string)
    (num_total_players num_simulations : Z) (shuffles : nat → list card)
    (final : list percentages) (started : nat) :
  run_simulation player_hands_str_initial community_cards_str_initial
                 num_total_players num_simulations shuffles
    = (Ok final, started) →
  ∃ v counts,
    validate player_hands_str_initial community_cards_str_initial
             num_total_players = Ok v
    ∧ run_trials shuffles v (range_len num_simulations) 0
                 (replicate (range_len num_total_players) (Counters 0 0))
      = (Ok counts, started)
    ∧ started = range_len num_simulations
    ∧ length counts = range_len num_total_players
    ∧ length final = range_len num_total_players
    ∧ final = percentages_of num_simulations <$> counts
    ∧ (∀ i res,
          counts !! i = Some res →
          final !! i
          = Some (Percentages (float_percentage (wins res) num_simulations)
                              (float_percentage (ties res) num_simulations))
          ∧ 0 ≤ wins res ∧ 0 ≤ ties res
          ∧ wins res + ties res ≤ Z.of_nat started)
    ∧ 0 ≤ total_wins counts ≤ Z.of_nat started.
Proof.
  unfold run_simulation.
  destruct (validate _ _ _) as [v|e] eqn:Hval; [|done].
  pose proof (run_trials_spec shuffles v (range_len num_simulations) 0
                (replicate (range_len num_total_players) (Counters 0 0)))
    as Hspec.
  destruct (run_trials _ _ _ _ _) as [[counts|e] started'] eqn:Hrun; [|done].
  destruct Hspec as [-> [Hadv Htotal]].
  rewrite final_results_spec. case_decide; [done|]. intros [= <- <-].
  pose proof (Forall2_length _ _ _ Hadv) as Hlen.
  rewrite length_replicate in Hlen. rewrite total_wins_replicate in Htotal.
  exists v, counts. split_and!; try done.
  - by rewrite length_fmap.
  - intros i res Hres. rewrite list_lookup_fmap, Hres. split; [done|].
    destruct (Forall2_lookup_r _ _ _ _ _ Hadv Hres) as (res0 & Hres0 & Hb).
    apply lookup_replicate in Hres0 as [-> _]. simpl in Hb. lia.
  - lia.
  - simpl. lia.
Qed.


(** ** Trials that cannot fail *)

Lemma hole_cards_missing_total (hands : list (list card)) :
  Forall (fun hand => length hand ≤ 2)%nat hands →
  (hole_cards_missing hands + length (concat hands) = 2 * length hands)%nat.
Proof.
  induction 1 as [|hand hands Hh _ IH]; [done|].
  change (hole_cards_missing (hand :: hands))
    with ((2 - length hand) + hole_cards_missing hands)%nat.
  cbn [concat length]. rewrite length_app. lia.
Qed.

Lemma known_cards_size (player_hands_str_initial : list (list string))
    (community_cards_str_initial : list string) (num_total_players : Z)
    (v : known) :
  validate player_hands_str_initial community_cards_str_initial
           num_total_players = Ok v →
  size (known_cards_deuces v)
  = length (concat (player_hands_deuces_initial v)
            ++ community_cards_deuces_initial v).
Proof.
  intros Hval. apply validate_Ok in Hval as (_ & Hnd & _ & ->). simpl.
  rewrite size_list_to_set by done. unfold known_texts.
  by rewrite texts_cards_app, texts_cards_concat.
Qed.

Lemma validated_hands_at_most_two
    (player_hands_str_initial : list (list string))
    (community_cards_str_initial : list string) (num_total_players : Z)
    (v : known) :
  validate player_hands_str_initial community_cards_str_initial
           num_total_players = Ok v →
  (∀ p, (p < range_len num_total_players)%nat →
        (length (stated (entry_of player_hands_str_initial p)) ≤ 2)%nat) →
  Forall (fun hand => length hand ≤ 2)%nat (player_hands_deuces_initial v).
Proof.
  intros Hval Htwo. pose proof Hval as Hval'.
  apply validate_Ok in Hval as (Hvalid & _ & _ & ->). simpl.
  apply Forall_forall. intros hand Hhand.
  apply list_elem_of_fmap in Hhand as (texts & -> & Htexts).
  apply list_elem_of_lookup in Htexts as [p Hp].
  assert (p < range_len num_total_players)%nat as Hlt.
  { apply lookup_lt_Some in Hp. unfold player_texts in Hp.
    by rewrite length_fmap, length_seq in Hp. }
  rewrite player_texts_lookup in Hp by done. injection Hp as <-.
  rewrite texts_cards_length by by eapply valid_player_texts.
  by apply Htwo.
Qed.

Lemma deal_trial_succeeds
    (player_hands_str_initial : list (list string))
    (community_cards_str_initial : list string) (num_total_players : Z)
    (v : known) (shuffled : list card) :
  validate player_hands_str_initial community_cards_str_initial
           num_total_players = Ok v →
  shuffled ≡ₚ full_deck →
  Forall (fun hand => length hand ≤ 2)%nat (player_hands_deuces_initial v) →
  (2 * range_len num_total_players + 5 ≤ 52)%nat →
  ∃ sim_player_hands sim_community_cards rest,
    deal_trial v shuffled = Ok (sim_player_hands, sim_community_cards, rest)
    ∧ length sim_player_hands = range_len num_total_players
    ∧ Forall (fun hand => length hand = 2%nat) sim_player_hands
    ∧ length sim_community_cards = 5%nat.
Proof.
  intros Hval Hperm Htwo Hroom.
  pose proof (validate_Ok_cards _ _ _ _ Hval) as (_ & _ & Hlen & Hlen5).
  pose proof (known_cards_size _ _ _ _ Hval) as Hsize.
  pose proof (restrict_deck_spec (known_cards_deuces v) _ Hperm)
    as (_ & _ & _ & Hdeck).
  pose proof (hole_cards_missing_total _ Htwo) as Htotal.
  rewrite length_app in Hsize.
  pose proof (deal_trial_spec v shuffled) as Hspec.
  destruct (deal_trial v shuffled) as [[[hs cc] rest]|e].
  2:{ exfalso. destruct Hspec as [_ Hlt]. lia. }
  destruct Hspec as (dh & dc & HF & Hdc & -> & -> & _).
  exists (zip_with app (player_hands_deuces_initial v) dh),
    (community_cards_deuces_initial v ++ dc), rest.
  pose proof (Forall2_length _ _ _ HF) as Hlen2.
  split_and!; [done| | |].
  - rewrite length_zip_with_l_eq; [done|lia].
  - apply Forall_forall. intros hand Hhand.
    apply list_elem_of_lookup in Hhand as [p Hp].
    apply lookup_zip_with_Some in Hp as (h & d & -> & Hh & Hd).
    rewrite length_app, (Forall2_lookup_lr _ _ _ _ _ _ HF Hh Hd).
    rewrite Forall_forall in Htwo.
    pose proof (Htwo h (list_elem_of_lookup_2 _ _ _ Hh)). lia.
  - rewrite length_app, Hdc. lia.
Qed.

Lemma score_players_succeeds (sim_community_cards : list card)
    (sim_player_hands : list (list card)) :
  Forall (fun hand => length (sim_community_cards ++ hand) = 7%nat
                      ∧ NoDup (sim_community_cards ++ hand))
         sim_player_hands →
  ∃ player_scores,
    score_players sim_community_cards sim_player_hands = Ok player_scores
    ∧ length player_scores = length sim_player_hands.
Proof.
  induction 1 as [|hand hands [Hlen Hnd] _ (scores & IH & Hl)]; simpl.
  { by exists []. }
  destruct (evaluate_seven _ _ Hlen Hnd) as [score ->]. simpl.
  rewrite IH. simpl. exists (score :: scores). split; [done|]. simpl. by rewrite Hl.
Qed.

Lemma simulate_trial_succeeds
    (player_hands_str_initial : list (list string))
    (community_cards_str_initial : list string) (num_total_players : Z)
    (v : known) (shuffled : list card) (player_results : list counters) :
  validate player_hands_str_initial community_cards_str_initial
           num_total_players = Ok v →
  shuffled ≡ₚ full_deck →
  Forall (fun hand => length hand ≤ 2)%nat (player_hands_deuces_initial v) →
  (0 < range_len num_total_players)%nat →
  (2 * range_len num_total_players + 5 ≤ 52)%nat →
  is_Ok (simulate_trial v shuffled player_results).
Proof.
  intros Hval Hperm Htwo Hpos Hroom.
  destruct (deal_trial_succeeds _ _ _ _ _ Hval Hperm Htwo Hroom)
    as (hs & cc & rest & Hdeal & Hlen & Hhands & Hboard).
  pose proof (dealt_cards_distinct _ _ _ _ _ _ _ _ Hval Hperm Hdeal) as Hnd.
  destruct (score_players_succeeds cc hs) as (scores & Hscores & Hls).
  { apply Forall_forall. intros hand Hhand. split.
    - rewrite length_app, Hboard. rewrite Forall_forall in Hhands.
      by rewrite (Hhands hand Hhand).
    - by eapply NoDup_hand_with_board. }
  unfold simulate_trial. rewrite Hdeal. simpl. rewrite Hscores. simpl.
  unfold score_trial. destruct scores as [|s scores]; [simpl in Hls; lia|].
  simpl. by eexists.
Qed.

Lemma run_trials_succeeds (shuffles : nat → list card) (v : known)
    (todo started : nat) (player_results : list counters) :
  (∀ k results, is_Ok (simulate_trial v (shuffles k) results)) →
  ∃ player_results',
    run_trials shuffles v todo started player_results
    = (Ok player_results', (started + todo)%nat).
Proof.
  intros Hok. revert started player_results.
  induction todo as [|todo IH]; intros started player_results; simpl.
  { exists player_results. by rewrite Nat.add_0_r. }
  destruct (Hok started player_results) as [results1 ->].
  destruct (IH (S started) results1) as [results' ->].
  exists results'. f_equal. lia.
Qed.

(** No trial can fail when every player was given at most two hole cards,
    there is at least one player and the deck has two cards for every player
    and five for the board: the call then completes unless the number of
    simulations is zero. *)
Lemma run_simulation_completes
    (player_hands_str_initial : list (list string))
    (community_cards_str_initial : list string)
    (num_total_players num_simulations : Z) (shuffles : nat → list card)
    (v : known) :
  validate player_hands_str_initial community_cards_str_initial
           num_total_players = Ok v →
  (∀ k, shuffles k ≡ₚ full_deck) →
  (∀ p, (p < range_len num_total_players)%nat →
        (length (stated (entry_of player_hands_str_initial p)) ≤ 2)%nat) →
  1 ≤ num_total_players →
  2 * num_total_players + 5 ≤ 52 →
  num_simulations ≠ 0 →
  ∃ final,
    run_simulation player_hands_str_initial community_cards_str_initial
                   num_total_players num_simulations shuffles
    = (Ok final, range_len num_simulations)
    ∧ length final = range_len num_total_players.
Proof.
  clear get_rank_class class_to_string.
  intros Hval Hperm Htwo Hpos Hroom Hsims.
  pose proof (validated_hands_at_most_two _ _ _ _ Hval Htwo) as Htwo'.
  destruct (run_trials_succeeds shuffles v (range_len num_simulations) 0
              (replicate (range_len num_total_players) (Counters 0 0)))
    as [counts Hrun].
  { intros k results. eapply simulate_trial_succeeds; eauto;
      unfold range_len; lia. }
  pose proof (run_trials_spec shuffles v (range_len num_simulations) 0
                (replicate (range_len num_total_players) (Counters 0 0)))
    as Hspec.
  rewrite Hrun in Hspec. destruct Hspec as [_ [Hadv _]].
  apply Forall2_length in Hadv. rewrite length_replicate in Hadv.
  unfold run_simulation. rewrite Hval, Hrun. simpl.
  rewrite final_results_spec. rewrite decide_False by tauto.
  eexists. split; [done|]. by rewrite length_fmap.
Qed.


Lemma elem_of_concat {A} (ls : list (list A)) (x : A) :
  x ∈ concat ls ↔ ∃ l, x ∈ l ∧ l ∈ ls.
Proof.
  induction ls as [|l ls IH]; simpl.
  - split; [by intros ?%elem_of_nil|]. by intros (l & _ & ?%elem_of_nil).
  - rewrite elem_of_app, IH. split.
    + intros [Hx|(l' & Hx & Hl')]; [exists l; split; [done|left]|].
      exists l'. split; [done|by right].
    + intros (l' & Hx & Hl'). apply elem_of_cons in Hl' as [->|Hl']; [by left|].
      right. eauto.
Qed.

Lemma valid_community_texts (player_hands_str_initial : list (list string))
    (community_cards_str_initial : list string) (num_total_players : Z) :
  Forall valid_text
    (known_texts player_hands_str_initial community_cards_str_initial
                 num_total_players) →
  length (texts_cards (stated community_cards_str_initial))
  = length (stated community_cards_str_initial).
Proof.
  intros Hv. unfold known_texts in Hv. apply Forall_app in Hv as [_ Hv].
  by apply texts_cards_length.
Qed.

Lemma deal_trial_board (v : known) (shuffled : list card)
    (sim_player_hands : list (list card))
    (sim_community_cards rest : list card) :
  (length (community_cards_deuces_initial v) ≤ 5)%nat →
  deal_trial v shuffled = Ok (sim_player_hands, sim_community_cards, rest) →
  length sim_community_cards = 5%nat
  ∧ community_cards_deuces_initial v `prefix_of` sim_community_cards.
Proof.
  intros Hle Hdeal. pose proof (deal_trial_spec v shuffled) as Hspec.
  rewrite Hdeal in Hspec. destruct Hspec as (dh & dc & _ & Hdc & _ & -> & _).
  split; [rewrite length_app; lia|]. by exists dc.
Qed.

(** C6 as the code has it. With valid and distinct known cards, the call
    fails before any trial, with the error for too many community cards,
    when more than five community cards are given. Any number of community
    cards up to five passes the validation, one and two included; every
    trial then draws the board up to five cards, and the call completes
    under the conditions under which no trial can fail. *)
Theorem C6_community_count_checked_above_five
    (player_hands_str_initial : list (list string))
    (community_cards_str_initial : list string)
    (num_total_players num_simulations : Z) (shuffles : nat → list card) :
  Forall valid_text
    (known_texts player_hands_str_initial community_cards_str_initial
                 num_total_players) →
  NoDup (texts_cards
           (known_texts player_hands_str_initial community_cards_str_initial
                        num_total_players)) →
  ((5 < length (stated community_cards_str_initial))%nat →
   run_simulation player_hands_str_initial community_cards_str_initial
                  num_total_players num_simulations shuffles
   = (Raise TooManyCommunityCards, 0%nat))
  ∧ ((length (stated community_cards_str_initial) ≤ 5)%nat →
     ∃ v,
       validate player_hands_str_initial community_cards_str_initial
                num_total_players = Ok v
       ∧ community_cards_deuces_initial v
         = texts_cards (stated community_cards_str_initial)
       ∧ length (community_cards_deuces_initial v)
         = length (stated community_cards_str_initial)
       ∧ (∀ shuffled sim_player_hands sim_community_cards rest,
             deal_trial v shuffled
             = Ok (sim_player_hands, sim_community_cards, rest) →
             length sim_community_cards = 5%nat
             ∧ community_cards_deuces_initial v
               `prefix_of` sim_community_cards)
       ∧ ((∀ k, shuffles k ≡ₚ full_deck) →
          (∀ p, (p < range_len num_total_players)%nat →
                (length (stated (entry_of player_hands_str_initial p)) ≤ 2)%nat) →
          1 ≤ num_total_players →
          2 * num_total_players + 5 ≤ 52 →
          num_simulations ≠ 0 →
          ∃ final,
            run_simulation player_hands_str_initial
              community_cards_str_initial num_total_players num_simulations
              shuffles
            = (Ok final, range_len num_simulations)
            ∧ length final = range_len num_total_players)).
Proof.
  intros Hvalid Hnd.
  pose proof (valid_community_texts _ _ _ Hvalid) as Hlen.
  split.
  - intros Hmany. unfold run_simulation. rewrite validate_flat.
    assert (add_known_cards
              (known_texts player_hands_str_initial
                 community_cards_str_initial num_total_players) ∅
            = Ok (texts_cards
                    (known_texts player_hands_str_initial
                       community_cards_str_initial num_total_players),
                  list_to_set
                    (texts_cards
                       (known_texts player_hands_str_initial
                          community_cards_str_initial num_total_players))
                  ∪ ∅)) as ->.
    { apply add_known_cards_Ok.
      rewrite (stated_id (known_texts _ _ _)) by apply known_texts_nonempty.
      split_and!; [done|done|done| |done]. intros c _. apply not_elem_of_empty. }
    cbv zeta. rewrite Hlen.
    by destruct (Nat.ltb_spec 5 (length (stated community_cards_str_initial)));
      [|lia].
  - intros Hfew.
    eexists. split; [|split_and!].
    + apply validate_Ok. split_and!; [done|done|lia|reflexivity].
    + done.
    + done.
    + intros shuffled hs cc rest Hdeal.
      eapply deal_trial_board; [|exact Hdeal]. simpl. lia.
    + intros Hperm Htwo Hpos Hroom Hsims.
      eapply run_simulation_completes; eauto.
      apply validate_Ok. split_and!; [done|done|lia|reflexivity].
Qed.

(** In every trial a player's hand is the cards given for him followed by
    the cards, drawn from the deck, that were missing to two. *)
Lemma dealt_hand_completed
    (player_hands_str_initial : list (list string))
    (community_cards_str_initial : list string) (num_total_players : Z)
    (v : known) (shuffled : list card)
    (sim_player_hands : list (list card))
    (sim_community_cards rest : list card) (p : nat) :
  validate player_hands_str_initial community_cards_str_initial
           num_total_players = Ok v →
  shuffled ≡ₚ full_deck →
  deal_trial v shuffled = Ok (sim_player_hands, sim_community_cards, rest) →
  (p < range_len num_total_players)%nat →
  ∃ drawn,
    sim_player_hands !! p
    = Some (texts_cards (stated (entry_of player_hands_str_initial p))
            ++ drawn)
    ∧ length (texts_cards (stated (entry_of player_hands_str_initial p)))
      = length (stated (entry_of player_hands_str_initial p))
    ∧ length drawn
      = (2 - length (stated (entry_of player_hands_str_initial p)))%nat
    ∧ (∀ c, c ∈ drawn →
            c ∈ restrict_deck (known_cards_deuces v) shuffled
            ∧ c ∉ known_cards_deuces v).
Proof.
  intros Hval Hperm Hdeal Hp.
  pose proof (restrict_deck_spec (known_cards_deuces v) _ Hperm)
    as (_ & Hdin & _).
  pose proof Hval as Hval'.
  apply validate_Ok in Hval' as (Hvalid & _ & _ & Hv).
  pose proof (valid_player_texts _ _ _ p Hvalid Hp) as Hvp.
  pose proof (deal_trial_spec v shuffled) as Hspec. rewrite Hdeal in Hspec.
  destruct Hspec as (dh & dc & HF & _ & -> & _ & Hdeck).
  assert (player_hands_deuces_initial v !! p
          = Some (texts_cards (stated (entry_of player_hands_str_initial p))))
    as Hh.
  { rewrite Hv. simpl. by rewrite list_lookup_fmap, player_texts_lookup. }
  destruct (Forall2_lookup_l _ _ _ _ _ HF Hh) as (d & Hd & Hld).
  rewrite texts_cards_length in Hld by done.
  exists d. split_and!.
  - by rewrite lookup_zip_with, Hh, Hd.
  - by apply texts_cards_length.
  - done.
  - intros c Hc.
    assert (c ∈ restrict_deck (known_cards_deuces v) shuffled) as Hin.
    { rewrite Hdeck. apply elem_of_app. left. apply elem_of_concat.
      exists d. split; [done|]. by eapply list_elem_of_lookup_2. }
    split; [done|]. by apply Hdin.
Qed.

(** C7 as the code has it. The validation puts no condition on the number
    of hole cards given for a player: valid, distinct known cards with at
    most five community cards always pass it. In every trial a player's hand
    starts with the cards given for him and is completed from the deck with
    the cards that are missing to two; a player given exactly one card keeps
    it and receives one card from the deck. *)
Theorem C7_single_hole_card_is_completed
    (player_hands_str_initial : list (list string))
    (community_cards_str_initial : list string) (num_total_players : Z) :
  (Forall valid_text
     (known_texts player_hands_str_initial community_cards_str_initial
                  num_total_players) →
   NoDup (texts_cards
            (known_texts player_hands_str_initial community_cards_str_initial
                         num_total_players)) →
   (length (stated community_cards_str_initial) ≤ 5)%nat →
   is_Ok (validate player_hands_str_initial community_cards_str_initial
                   num_total_players))
  ∧ ∀ v shuffled sim_player_hands sim_community_cards rest p,
      validate player_hands_str_initial community_cards_str_initial
               num_total_players = Ok v →
      shuffled ≡ₚ full_deck →
      deal_trial v shuffled = Ok (sim_player_hands, sim_community_cards, rest) →
      (p < range_len num_total_players)%nat →
      ∃ drawn,
        sim_player_hands !! p
        = Some (texts_cards (stated (entry_of player_hands_str_initial p))
                ++ drawn)
        ∧ length (texts_cards (stated (entry_of player_hands_str_initial p)))
          = length (stated (entry_of player_hands_str_initial p))
        ∧ length drawn
          = (2 - length (stated (entry_of player_hands_str_initial p)))%nat
        ∧ (∀ c, c ∈ drawn →
                c ∈ restrict_deck (known_cards_deuces v) shuffled
                ∧ c ∉ known_cards_deuces v)
        ∧ (∀ card_s,
              stated (entry_of player_hands_str_initial p) = [card_s] →
              ∃ c d, text_card card_s = Some c
                     ∧ sim_player_hands !! p = Some [c; d] ∧ d ≠ c).
Proof.
  split.
  { intros Hvalid Hnd Hfew. eexists. apply validate_Ok.
    split_and!; [done|done| |reflexivity].
    by rewrite (valid_community_texts _ _ _ Hvalid). }
  intros v shuffled hs cc rest p Hval Hperm Hdeal Hp.
  destruct (dealt_hand_completed _ _ _ _ _ _ _ _ _ Hval Hperm Hdeal Hp)
    as (d & Hhand & Hlen & Hld & Hdrawn).
  exists d. split_and!; [done|done|done|done|].
  intros card_s Hone. rewrite Hone in *. simpl in Hld.
  pose proof (validate_Ok_cards _ _ _ _ Hval) as (_ & Hknown & _).
  apply validate_Ok in Hval as (Hvalid & _ & _ & Hv).
  pose proof (valid_player_texts _ _ _ p Hvalid Hp) as Hvp.
  rewrite Hone in Hvp. apply Forall_cons in Hvp as [[c Hc] _].
  assert (texts_cards [card_s] = [c]) as Hcards.
  { unfold texts_cards. simpl. by rewrite Hc. }
  rewrite Hcards in Hhand.
  destruct d as [|d1 [|d2 d]]; try discriminate.
  exists c, d1. split_and!; [done|done|].
  intros ->. destruct (Hdrawn c) as [_ Hn]; [left|]. apply Hn, Hknown.
  apply elem_of_app. left. apply elem_of_concat.
  exists [c]. split; [left|].
  rewrite Hv. simpl. apply list_elem_of_fmap. exists [card_s].
  split; [done|]. rewrite <- Hone.
  eapply list_elem_of_lookup_2. by apply player_texts_lookup.
Qed.


(** C8 as the code has it. [run_simulation] checks neither the number of
    players nor the number of simulations. With valid known cards, at most
    two for each player: with 1 to 23 players and a number of simulations
    other than zero the call completes and returns one entry per player;
    with zero simulations and at least one player it fails after the empty
    trial loop with a division by zero, no trial having started; with no
    player and no simulation it returns the empty list; and with no player,
    or with 24 players or more, and at least one simulation it fails inside
    its first trial, on the minimum of no score or on the exhausted deck. *)
Theorem C8_player_and_trial_counts_not_checked
    (player_hands_str_initial : list (list string))
    (community_cards_str_initial : list string)
    (num_total_players num_simulations : Z) (shuffles : nat → list card)
    (v : known) :
  validate player_hands_str_initial community_cards_str_initial
           num_total_players = Ok v →
  (∀ k, shuffles k ≡ₚ full_deck) →
  (∀ p, (p < range_len num_total_players)%nat →
        (length (stated (entry_of player_hands_str_initial p)) ≤ 2)%nat) →
  (1 ≤ num_total_players ≤ 23 → num_simulations ≠ 0 →
   ∃ final,
     run_simulation player_hands_str_initial community_cards_str_initial
                    num_total_players num_simulations shuffles
     = (Ok final, range_len num_simulations)
     ∧ length final = range_len num_total_players)
  ∧ (1 ≤ num_total_players → num_simulations = 0 →
     run_simulation player_hands_str_initial community_cards_str_initial
                    num_total_players num_simulations shuffles
     = (Raise ZeroDivision, 0%nat))
  ∧ (num_total_players ≤ 0 → num_simulations ≤ 0 →
     run_simulation player_hands_str_initial community_cards_str_initial
                    num_total_players num_simulations shuffles
     = (Ok [], 0%nat))
  ∧ (num_total_players ≤ 0 → 1 ≤ num_simulations →
     run_simulation player_hands_str_initial community_cards_str_initial
                    num_total_players num_simulations shuffles
     = (Raise MinOfEmptySequence, 1%nat))
  ∧ (24 ≤ num_total_players → 1 ≤ num_simulations →
     ∃ e,
       run_simulation player_hands_str_initial community_cards_str_initial
                      num_total_players num_simulations shuffles
       = (Raise e, 1%nat)
       ∧ (e = DeckExhaustedHands ∨ e = DeckExhaustedCommunity)).
Proof.
  intros Hval Hperm Htwo.
  pose proof (validated_hands_at_most_two _ _ _ _ Hval Htwo) as Htwo'.
  pose proof (validate_Ok_cards _ _ _ _ Hval) as (_ & _ & Hlen & Hlen5).
  pose proof (known_cards_size _ _ _ _ Hval) as Hsize.
  rewrite length_app in Hsize.
  pose proof (restrict_deck_spec (known_cards_deuces v) _ (Hperm 0%nat))
    as (_ & _ & _ & Hdeck).
  pose proof (hole_cards_missing_total _ Htwo') as Htotal.
  pose proof (deal_trial_spec v (shuffles 0%nat)) as Hspec.
  unfold run_simulation. rewrite Hval. split_and!.
  - intros Hn Hsims.
    destruct (run_simulation_completes _ _ _ num_simulations _ _
                Hval Hperm Htwo)
      as (final & Hrun & Hfinal); [lia|lia|done|].
    unfold run_simulation in Hrun. rewrite Hval in Hrun. eauto.
  - intros Hn ->. simpl. rewrite final_results_spec.
    rewrite decide_True; [done|]. split; [done|].
    unfold range_len. destruct (Z.to_nat num_total_players) eqn:Hz; [lia|done].
  - intros Hn Hsims. unfold range_len.
    rewrite (Z2Nat.nonpos num_simulations), (Z2Nat.nonpos num_total_players)
      by lia.
    reflexivity.
  - intros Hn Hsims. unfold range_len in *.
    rewrite (Z2Nat.nonpos num_total_players) in * by lia.
    destruct (Z.to_nat num_simulations) as [|todo] eqn:Hz; [lia|].
    cbn [run_trials]. unfold simulate_trial.
    destruct (player_hands_deuces_initial v) as [|? ?] eqn:Hhands;
      [|discriminate].
    destruct (deal_trial v (shuffles 0%nat)) as [[[hs cc] rest]|e].
    + destruct Hspec as (dh & dc & HF & _ & -> & _).
      by apply Forall2_nil_inv_l in HF as ->.
    + exfalso. destruct Hspec as [_ Hlt].
      unfold hole_cards_missing in Hlt. simpl in *. lia.
  - intros Hn Hsims. unfold range_len in *.
    destruct (Z.to_nat num_simulations) as [|todo] eqn:Hz; [lia|].
    cbn [run_trials]. unfold simulate_trial.
    destruct (deal_trial v (shuffles 0%nat)) as [[[hs cc] rest]|e].
    + exfalso. destruct Hspec as (dh & dc & HF & Hdc & _ & _ & Hd).
      apply drawn_hands_length in HF. rewrite Hd, !length_app in Hdeck. lia.
    + destruct Hspec as [He _]. simpl. eauto.
Qed.


(** ** The evaluation entry point *)

Lemma get_hand_strength_parsed (hole_cards_str community_cards_str : list string)
    (hole community : list card) :
  parse_cards hole_cards_str = Ok hole →
  parse_cards community_cards_str = Ok community →
  get_hand_strength hole_cards_str community_cards_str
  = if decide (length hole ≠ 2%nat) then Raise HoleCardsNotTwo
    else if decide (5 < length community)%nat then Raise CommunityNotZeroToFive
    else score ← evaluate community hole;
         Ok (score, class_to_string (get_rank_class score)).
Proof.
  intros Hhole Hcommunity. unfold get_hand_strength.
  rewrite (parse_cards_length _ _ Hhole).
  rewrite (parse_cards_length _ _ Hcommunity).
  destruct (decide (length hole_cards_str ≠ 2%nat)) as [Hne|Heq].
  - destruct hole_cards_str as [|h1 hs].
    { by rewrite bool_decide_eq_true_2 by done. }
    rewrite bool_decide_eq_false_2 by done.
    by rewrite (proj2 (Nat.eqb_neq _ _) Hne).
  - apply dec_stable in Heq.
    destruct hole_cards_str as [|h1 hs]; [done|].
    rewrite bool_decide_eq_false_2 by done. rewrite Heq.
    cbn [Nat.eqb negb orb].
    destruct (decide (5 < length community_cards_str)%nat) as [Hgt|Hle].
    + by rewrite (proj2 (Nat.leb_gt _ _) Hgt).
    + rewrite (proj2 (Nat.leb_le _ _)) by lia. cbn [negb].
      rewrite Hhole. cbn [mbind result_bind]. rewrite Hcommunity. done.
Qed.

(** C9 as the code and the evaluator of the specification have it. For
    texts that are valid cards: [get_hand_strength] fails with the error for
    the number of hole cards unless there are exactly two; otherwise with the
    error for the number of community cards when there are more than five;
    otherwise the evaluator fails with the invalid-hand-size error when fewer
    than three community cards are given; otherwise, on five to seven cards,
    the evaluator fails with the duplicate-card error when two cards are
    equal. So every input with a number of cards outside five to seven fails
    with an error on the size of the hand, and every input with two equal
    cards fails, with the duplicate-card error when its sizes are right. *)
Theorem C9_hand_strength_rejections
    (hole_cards_str community_cards_str : list string)
    (hole community : list card) :
  parse_cards hole_cards_str = Ok hole →
  parse_cards community_cards_str = Ok community →
  (length hole ≠ 2%nat →
   get_hand_strength hole_cards_str community_cards_str
   = Raise HoleCardsNotTwo)
  ∧ (length hole = 2%nat → (5 < length community)%nat →
     get_hand_strength hole_cards_str community_cards_str
     = Raise CommunityNotZeroToFive)
  ∧ (length hole = 2%nat → (length community < 3)%nat →
     get_hand_strength hole_cards_str community_cards_str
     = Raise (InvalidHandSize (length (community ++ hole))))
  ∧ (length hole = 2%nat → (3 ≤ length community ≤ 5)%nat →
     ¬ NoDup (community ++ hole) →
     get_hand_strength hole_cards_str community_cards_str
     = Raise DuplicateCardInHand)
  ∧ (¬ (length (community ++ hole) = 5 ∨ length (community ++ hole) = 6
        ∨ length (community ++ hole) = 7)%nat →
     ∃ e, get_hand_strength hole_cards_str community_cards_str = Raise e
          ∧ hand_size_error e)
  ∧ (¬ NoDup (community ++ hole) →
     ∃ e, get_hand_strength hole_cards_str community_cards_str = Raise e
          ∧ (e = DuplicateCardInHand ∨ hand_size_error e)).
Proof.
  intros Hhole Hcommunity.
  rewrite (get_hand_strength_parsed _ _ _ _ Hhole Hcommunity).
  assert (∀ n, (length community < 3)%nat → length hole = 2%nat →
            n = length (community ++ hole) →
            evaluate community hole = Raise (InvalidHandSize n)) as Hsmall.
  { intros n Hlt Hl ->. unfold evaluate.
    rewrite bool_decide_eq_false_2; [done|]. rewrite length_app. lia. }
  assert ((3 ≤ length community ≤ 5)%nat → length hole = 2%nat →
          ¬ NoDup (community ++ hole) →
          evaluate community hole = Raise DuplicateCardInHand) as Hdup.
  { intros Hl Hl2 Hnd. unfold evaluate.
    rewrite bool_decide_eq_true_2 by (rewrite length_app; lia).
    by rewrite (bool_decide_eq_false_2 (NoDup _)). }
  unfold hand_size_error. split_and!.
  - intros Hne. by rewrite decide_True.
  - intros Heq Hgt. rewrite decide_False by lia. by rewrite decide_True.
  - intros Heq Hlt. rewrite !decide_False by lia.
    by rewrite (Hsmall _ Hlt Heq eq_refl).
  - intros Heq Hl Hnd. rewrite !decide_False by lia. by rewrite Hdup.
  - intros Hsize. rewrite length_app in Hsize.
    destruct (decide (length hole ≠ 2%nat)); [eauto|].
    destruct (decide (5 < length community)%nat); [eauto|].
    rewrite (Hsmall _ ltac:(lia) ltac:(lia) eq_refl). simpl. eauto 6.
  - intros Hnd.
    destruct (decide (length hole ≠ 2%nat)); [eauto 6|].
    destruct (decide (5 < length community)%nat); [eauto 6|].
    destruct (decide (length community < 3)%nat).
    + rewrite (Hsmall _ ltac:(lia) ltac:(lia) eq_refl). simpl. eauto 7.
    + rewrite Hdup by (done || lia). simpl. eauto.
Qed.

(** ** Entries of the hand list beyond the number of players *)

Lemma entry_of_take (player_hands_str_initial : list (list string))
    (count p : nat) :
  (p < count)%nat →
  entry_of (take count player_hands_str_initial) p
  = entry_of player_hands_str_initial p.
Proof. intros Hp. unfold entry_of. by rewrite lookup_take_lt. Qed.

Lemma entry_of_padded (player_hands_str_initial : list (list string))
    (count p : nat) :
  entry_of (player_hands_str_initial ++ replicate count []) p
  = entry_of player_hands_str_initial p.
Proof.
  unfold entry_of.
  destruct (decide (p < length player_hands_str_initial)%nat).
  - by rewrite lookup_app_l.
  - rewrite lookup_app_r by lia.
    rewrite (lookup_ge_None_2 player_hands_str_initial) by lia.
    destruct (replicate count [] !! _) as [e|] eqn:He; [|done].
    by apply lookup_replicate in He as [-> _].
Qed.

Lemma player_texts_ext (hands1 hands2 : list (list string)) (count : nat) :
  (∀ p, (p < count)%nat → entry_of hands1 p = entry_of hands2 p) →
  player_texts hands1 0 count = player_texts hands2 0 count.
Proof.
  intros Hext. unfold player_texts. apply list_eq. intros p.
  rewrite !list_lookup_fmap.
  destruct (decide (p < count)%nat).
  - rewrite lookup_seq_lt by done. simpl. by rewrite Hext.
  - by rewrite lookup_ge_None_2 by (rewrite length_seq; lia).
Qed.

Lemma run_simulation_ext (hands1 hands2 : list (list string))
    (community_cards_str_initial : list string)
    (num_total_players num_simulations : Z) (shuffles : nat → list card) :
  (∀ p, (p < range_len num_total_players)%nat →
        entry_of hands1 p = entry_of hands2 p) →
  run_simulation hands1 community_cards_str_initial num_total_players
                 num_simulations shuffles
  = run_simulation hands2 community_cards_str_initial num_total_players
                   num_simulations shuffles.
Proof.
  intros Hext. unfold run_simulation. rewrite !validate_flat.
  unfold known_texts. by rewrite (player_texts_ext hands1 hands2).
Qed.


Lemma run_simulation_length (player_hands_str_initial : list (list string))
    (community_cards_str_initial : list string)
    (num_total_players num_simulations : Z) (shuffles : nat → list card)
    (final : list percentages) (started : nat) :
  run_simulation player_hands_str_initial community_cards_str_initial
                 num_total_players num_simulations shuffles
    = (Ok final, started) →
  length final = range_len num_total_players.
Proof.
  unfold run_simulation.
  destruct (validate _ _ _) as [v|e]; [|done].
  pose proof (run_trials_spec shuffles v (range_len num_simulations) 0
                (replicate (range_len num_total_players) (Counters 0 0)))
    as Hspec.
  destruct (run_trials _ _ _ _ _) as [[counts|e] started']; [|done].
  destruct Hspec as [_ [Hadv _]]. apply Forall2_length in Hadv.
  rewrite length_replicate in Hadv.
  rewrite final_results_spec. case_decide; [done|]. intros [= <- _].
  by rewrite length_fmap.
Qed.

(** C10. Only the first [num_total_players] entries of the hand list are
    used. Entries beyond them change nothing: the call is the call on the
    list cut to [num_total_players] entries, so their texts are not
    converted, not checked for duplicates and not added to the known cards,
    and every card that is not a known card is in the deck of every trial.
    A list with fewer entries behaves as if it were filled up with empty
    entries, and a player without an entry gets both hole cards from the
    deck. A call that completes returns [num_total_players] entries. *)
Theorem C10_only_first_entries_used
    (player_hands_str_initial : list (list string))
    (community_cards_str_initial : list string)
    (num_total_players num_simulations : Z) (shuffles : nat → list card) :
  run_simulation player_hands_str_initial community_cards_str_initial
                 num_total_players num_simulations shuffles
  = run_simulation (take (range_len num_total_players) player_hands_str_initial)
                   community_cards_str_initial num_total_players
                   num_simulations shuffles
  ∧ run_simulation player_hands_str_initial community_cards_str_initial
                   num_total_players num_simulations shuffles
    = run_simulation
        (player_hands_str_initial
         ++ replicate (range_len num_total_players
                       - length player_hands_str_initial) [])
        community_cards_str_initial num_total_players num_simulations shuffles
  ∧ (∀ final started,
        run_simulation player_hands_str_initial community_cards_str_initial
                       num_total_players num_simulations shuffles
        = (Ok final, started) →
        length final = range_len num_total_players)
  ∧ ∀ v,
      validate player_hands_str_initial community_cards_str_initial
               num_total_players = Ok v →
      (∀ c, c ∈ known_cards_deuces v ↔
            c ∈ texts_cards
                  (known_texts
                     (take (range_len num_total_players)
                           player_hands_str_initial)
                     community_cards_str_initial num_total_players))
      ∧ (∀ shuffled c,
            shuffled ≡ₚ full_deck → c ∉ known_cards_deuces v →
            c ∈ restrict_deck (known_cards_deuces v) shuffled)
      ∧ (∀ shuffled sim_player_hands sim_community_cards rest p,
            shuffled ≡ₚ full_deck →
            deal_trial v shuffled
            = Ok (sim_player_hands, sim_community_cards, rest) →
            (length player_hands_str_initial ≤ p
             < range_len num_total_players)%nat →
            ∃ d1 d2,
              sim_player_hands !! p = Some [d1; d2]
              ∧ d1 ∈ restrict_deck (known_cards_deuces v) shuffled
              ∧ d2 ∈ restrict_deck (known_cards_deuces v) shuffled).
Proof.
  split_and!.
  - apply run_simulation_ext. intros p Hp. by rewrite entry_of_take.
  - apply run_simulation_ext. intros p Hp. by rewrite entry_of_padded.
  - apply run_simulation_length.
  - intros v Hval. split_and!.
    + intros c. apply validate_Ok in Hval as (_ & _ & _ & ->). simpl.
      rewrite elem_of_list_to_set. unfold known_texts.
      rewrite (player_texts_ext
                 (take (range_len num_total_players) player_hands_str_initial)
                 player_hands_str_initial); [done|].
      intros p Hp. by apply entry_of_take.
    + intros shuffled c Hperm Hc.
      by apply (restrict_deck_spec (known_cards_deuces v) _ Hperm).
    + intros shuffled hs cc rest p Hperm Hdeal [Hge Hlt].
      destruct (dealt_hand_completed _ _ _ _ _ _ _ _ _ Hval Hperm Hdeal Hlt)
        as (d & Hhand & _ & Hld & Hdrawn).
      assert (entry_of player_hands_str_initial p = []) as Hentry.
      { unfold entry_of. by rewrite lookup_ge_None_2. }
      rewrite Hentry in *. simpl in *.
      destruct d as [|d1 [|d2 [|d3 d]]]; try discriminate.
      exists d1, d2. split_and!; [done| |].
      * apply Hdrawn. left.
      * apply Hdrawn. right. left.
Qed.


(** ** Further properties of the validation *)

Lemma card_str_to_deuces_card_Raise (card_str : string) (e : error) :
  card_str_to_deuces_card card_str = Raise e →
  (String.length card_str ≠ 2%nat ∧ e = InvalidCardFormat card_str)
  ∨ (String.length card_str = 2%nat ∧ Card_new card_str = None
     ∧ e = InvalidCard card_str).
Proof.
  unfold card_str_to_deuces_card.
  destruct (decide (card_str = "")) as [->|Hne].
  { rewrite bool_decide_eq_true_2 by done. simpl. intros [= <-].
    left. split; [simpl; lia|done]. }
  rewrite bool_decide_eq_false_2 by done. simpl.
  destruct (Nat.eqb_spec (String.length card_str) 2) as [Hl|Hl]; simpl.
  - destruct (Card_new card_str); [done|]. intros [= <-]. by right.
  - intros [= <-]. by left.
Qed.

Lemma valid_texts_stated (card_strs : list string) :
  Forall valid_text card_strs → stated card_strs = card_strs.
Proof.
  intros Hv. apply stated_id. eapply Forall_impl; [exact Hv|].
  intros s. apply text_card_nonempty.
Qed.

Lemma add_known_cards_invalid (pre post : list string) (card_s : string)
    (e : error) (known_cards : gset card) :
  Forall valid_text pre →
  NoDup (texts_cards pre) →
  (∀ c, c ∈ texts_cards pre → c ∉ known_cards) →
  card_s ≠ "" →
  card_str_to_deuces_card card_s = Raise e →
  add_known_cards (pre ++ card_s :: post) known_cards = Raise e.
Proof.
  intros Hv Hnd Hnew Hs He. rewrite add_known_cards_app.
  assert (add_known_cards pre known_cards
          = Ok (texts_cards pre, list_to_set (texts_cards pre) ∪ known_cards))
    as ->.
  { apply add_known_cards_Ok. rewrite valid_texts_stated by done. done. }
  simpl. rewrite bool_decide_eq_false_2 by done. by rewrite He.
Qed.

Lemma add_known_cards_Raise (card_strs : list string) (known_cards : gset card)
    (e : error) :
  add_known_cards card_strs known_cards = Raise e →
  ∃ card_s, card_s ∈ stated card_strs
            ∧ (e = InvalidCardFormat card_s ∨ e = InvalidCard card_s
               ∨ e = DuplicateCard card_s).
Proof.
  rewrite add_known_cards_stated.
  pose proof (stated_nonempty card_strs) as Hne.
  revert Hne known_cards.
  induction (stated card_strs) as [|s l IH]; intros Hne known_cards; [done|].
  apply Forall_cons in Hne as [Hs Hne]. simpl.
  rewrite bool_decide_eq_false_2 by done.
  destruct (card_str_to_deuces_card s) as [c|e'] eqn:Hc; simpl.
  - case_bool_decide.
    + intros [= <-]. exists s. split; [left|auto].
    + destruct (add_known_cards l _) as [[cs k]|e'] eqn:Hrec; simpl; [done|].
      intros [= <-]. destruct (IH Hne _ Hrec) as (s' & Hs' & He).
      exists s'. split; [by right|done].
  - intros [= <-]. exists s. split; [left|].
    apply card_str_to_deuces_card_Raise in Hc as [[_ ->]|(_ & _ & ->)]; auto.
Qed.

(** X1. The known texts are read in order, and the first text that is not a
    card stops the call before any trial, with the error of that text: the
    format error when it does not have two characters, the invalid-card error
    when the card library refuses it. *)
Theorem invalid_known_text_rejected
    (player_hands_str_initial : list (list string))
    (community_cards_str_initial : list string)
    (num_total_players num_simulations : Z) (shuffles : nat → list card)
    (pre post : list string) (card_s : string) (e : error) :
  known_texts player_hands_str_initial community_cards_str_initial
              num_total_players = pre ++ card_s :: post →
  Forall valid_text pre →
  NoDup (texts_cards pre) →
  card_str_to_deuces_card card_s = Raise e →
  run_simulation player_hands_str_initial community_cards_str_initial
                 num_total_players num_simulations shuffles
  = (Raise e, 0%nat)
  ∧ ((String.length card_s ≠ 2%nat ∧ e = InvalidCardFormat card_s)
     ∨ (String.length card_s = 2%nat ∧ e = InvalidCard card_s)).
Proof.
  intros Htexts Hvalid Hnd He. split.
  - assert (card_s ≠ "") as Hs.
    { pose proof (known_texts_nonempty player_hands_str_initial
                    community_cards_str_initial num_total_players) as Hne.
      rewrite Htexts in Hne. apply Forall_app in Hne as [_ Hne].
      by apply Forall_cons in Hne as [? _]. }
    unfold run_simulation. rewrite validate_flat, Htexts.
    assert (∀ c, c ∈ texts_cards pre → c ∉ (∅ : gset card)) as Hnew.
    { intros c _. apply not_elem_of_empty. }
    by rewrite (add_known_cards_invalid pre post card_s e ∅ Hvalid Hnd Hnew
                  Hs He).
  - apply card_str_to_deuces_card_Raise in He as [[? ->]|(? & _ & ->)]; auto.
Qed.

(** X2. A call fails without having started a trial in two cases only: its
    validation fails, with the format, invalid-card or duplicate-card error
    of one of the known texts or with the error for too many community
    cards; or the validation succeeds, the number of simulations is zero and
    there is at least one player, and the result is a division by zero. *)
Theorem failures_before_first_trial
    (player_hands_str_initial : list (list string))
    (community_cards_str_initial : list string)
    (num_total_players num_simulations : Z) (shuffles : nat → list card)
    (e : error) :
  run_simulation player_hands_str_initial community_cards_str_initial
                 num_total_players num_simulations shuffles
  = (Raise e, 0%nat) ↔
  (validate player_hands_str_initial community_cards_str_initial
            num_total_players = Raise e
   ∧ (e = TooManyCommunityCards
      ∨ ∃ card_s,
          card_s ∈ known_texts player_hands_str_initial
                     community_cards_str_initial num_total_players
          ∧ (e = InvalidCardFormat card_s ∨ e = InvalidCard card_s
             ∨ e = DuplicateCard card_s)))
  ∨ (is_Ok (validate player_hands_str_initial community_cards_str_initial
                     num_total_players)
     ∧ e = ZeroDivision ∧ num_simulations = 0 ∧ 1 ≤ num_total_players).
Proof.
  unfold run_simulation.
  destruct (validate _ _ _) as [v|e'] eqn:Hval.
  - pose proof (run_trials_spec shuffles v (range_len num_simulations) 0
                  (replicate (range_len num_total_players) (Counters 0 0)))
      as Hspec.
    destruct (run_trials _ _ _ _ _) as [[counts|e'] started] eqn:Hrun.
    + destruct Hspec as [-> [Hadv _]]. apply Forall2_length in Hadv.
      rewrite length_replicate in Hadv. rewrite final_results_spec.
      split.
      * case_decide as Hz; [|done]. intros [= <- Hs]. right.
        destruct Hz as [-> Hne]. split_and!; [by eexists|done|done|].
        destruct counts; [done|]. simpl in Hadv. unfold range_len in Hadv. lia.
      * intros [[[=] _]|(_ & -> & -> & Hn)].
        rewrite decide_True; [done|]. split; [done|].
        destruct counts; [|done]. simpl in Hadv. unfold range_len in Hadv. lia.
    + split.
      * intros [= <- ->]. lia.
      * intros [[[=] _]|(_ & -> & -> & Hn)]. simpl in Hrun. done.
  - split.
    + intros [= <-]. left. split; [done|].
      rewrite validate_flat in Hval.
      destruct (add_known_cards _ ∅) as [[cs k]|e''] eqn:Hadd.
      * cbv zeta in Hval. destruct (_ <? _)%nat; [|done].
        injection Hval as <-. by left.
      * injection Hval as <-. right.
        apply add_known_cards_Raise in Hadd as (s & Hs & He).
        rewrite (stated_id (known_texts _ _ _)) in Hs
          by apply known_texts_nonempty.
        eauto.
    + intros [[[= <-] _]|([v [=]] & _)]. done.
Qed.

(** X3. The validation succeeds exactly when every known text is a card,
    the known cards are pairwise distinct and at most five of them are
    community cards; nothing else is checked. *)
Theorem validation_succeeds_iff
    (player_hands_str_initial : list (list string))
    (community_cards_str_initial : list string) (num_total_players : Z) :
  is_Ok (validate player_hands_str_initial community_cards_str_initial
                  num_total_players) ↔
  Forall valid_text
    (known_texts player_hands_str_initial community_cards_str_initial
                 num_total_players)
  ∧ NoDup (texts_cards
             (known_texts player_hands_str_initial
                community_cards_str_initial num_total_players))
  ∧ (length (stated community_cards_str_initial) ≤ 5)%nat.
Proof.
  split.
  - intros [v Hv]. apply validate_Ok in Hv as (Hvalid & Hnd & Hlen & _).
    rewrite (valid_community_texts _ _ _ Hvalid) in Hlen. done.
  - intros (Hvalid & Hnd & Hlen). eexists. apply validate_Ok.
    rewrite (valid_community_texts _ _ _ Hvalid). done.
Qed.

Lemma entry_of_stated (player_hands_str_initial : list (list string)) (p : nat) :
  entry_of (stated <$> player_hands_str_initial) p
  = stated (entry_of player_hands_str_initial p).
Proof.
  unfold entry_of. rewrite list_lookup_fmap.
  by destruct (player_hands_str_initial !! p).
Qed.

(** X4. Empty texts carry no information: the call is the call on the
    entries and the community list with their empty texts removed, so an
    entry with one card and an empty text is the entry with that card alone,
    whichever comes first. *)
Theorem empty_texts_ignored
    (player_hands_str_initial : list (list string))
    (community_cards_str_initial : list string)
    (num_total_players num_simulations : Z) (shuffles : nat → list card) :
  run_simulation player_hands_str_initial community_cards_str_initial
                 num_total_players num_simulations shuffles
  = run_simulation (stated <$> player_hands_str_initial)
                   (stated community_cards_str_initial)
                   num_total_players num_simulations shuffles.
Proof.
  unfold run_simulation. rewrite !validate_flat. unfold known_texts.
  assert (∀ count,
            player_texts (stated <$> player_hands_str_initial) 0 count
            = player_texts player_hands_str_initial 0 count) as Hsame.
  { intros count. unfold player_texts. apply list_fmap_ext.
    intros _ p _. by rewrite entry_of_stated, stated_idemp. }
  by rewrite Hsame, stated_idemp.
Qed.


(** ** Every trial is counted once *)

Lemma totals_alter_add_win (i : nat) (player_results : list counters) :
  (i < length player_results)%nat →
  total_wins (alter add_win i player_results) = total_wins player_results + 1
  ∧ total_ties (alter add_win i player_results) = total_ties player_results.
Proof.
  revert i. induction player_results as [|res l IH]; intros [|i] Hi;
    unfold total_wins, total_ties in *; simpl in *; try lia.
  destruct (IH i) as [IH1 IH2]; [lia|].
  change (list_alter add_win i l) with (alter add_win i l). lia.
Qed.

Lemma totals_alter_add_tie (i : nat) (player_results : list counters) :
  (i < length player_results)%nat →
  total_wins (alter add_tie i player_results) = total_wins player_results
  ∧ total_ties (alter add_tie i player_results) = total_ties player_results + 1.
Proof.
  revert i. induction player_results as [|res l IH]; intros [|i] Hi;
    unfold total_wins, total_ties in *; simpl in *; try lia.
  destruct (IH i) as [IH1 IH2]; [lia|].
  change (list_alter add_tie i l) with (alter add_tie i l). lia.
Qed.

Lemma totals_foldl_add_tie (winners : list nat) (player_results : list counters) :
  Forall (fun w => w < length player_results)%nat winners →
  total_wins (foldl (fun res winner_idx => alter add_tie winner_idx res)
                    player_results winners) = total_wins player_results
  ∧ total_ties (foldl (fun res winner_idx => alter add_tie winner_idx res)
                      player_results winners)
    = total_ties player_results + Z.of_nat (length winners).
Proof.
  revert player_results. induction winners as [|w ws IH];
    intros player_results Hws; cbn [foldl length].
  { split; [done|lia]. }
  apply Forall_cons in Hws as [Hw Hws].
  destruct (totals_alter_add_tie w player_results Hw) as [H1 H2].
  destruct (IH (alter add_tie w player_results)) as [IH1 IH2].
  { by rewrite length_alter. }
  rewrite IH1, IH2, H1, H2. split; [done|lia].
Qed.

Lemma winners_of_bounds (player_scores : list Z) (min_score : Z) :
  min_score ∈ player_scores →
  winners_of player_scores min_score ≠ []
  ∧ Forall (fun w => w < length player_scores)%nat
           (winners_of player_scores min_score)
  ∧ (length (winners_of player_scores min_score) ≤ length player_scores)%nat.
Proof.
  intros Hin. split_and!.
  - apply list_elem_of_lookup in Hin as [i Hi].
    apply winners_of_elem in Hi. intros Hnil. rewrite Hnil in Hi.
    by apply elem_of_nil in Hi.
  - apply Forall_forall. intros w Hw. apply winners_of_elem in Hw.
    by apply lookup_lt_Some in Hw.
  - unfold winners_of. rewrite length_fmap.
    etransitivity; [apply length_filter|]. by rewrite length_imap.
Qed.

Lemma score_players_length (sim_community_cards : list card)
    (sim_player_hands : list (list card)) (player_scores : list Z) :
  score_players sim_community_cards sim_player_hands = Ok player_scores →
  length player_scores = length sim_player_hands.
Proof.
  revert player_scores.
  induction sim_player_hands as [|hand hands IH]; intros scores; simpl.
  { by intros [= <-]. }
  rewrite bind_Ok. intros (score & _ & Hrest).
  apply bind_Ok in Hrest as (rest & Hrest & [= <-]). simpl. f_equal.
  by apply IH.
Qed.

Lemma simulate_trial_tallied (v : known) (shuffled : list card)
    (player_results player_results' : list counters) :
  length player_results = length (player_hands_deuces_initial v) →
  simulate_trial v shuffled player_results = Ok player_results' →
  tallied 1 (Z.of_nat (length player_results)) player_results player_results'.
Proof.
  intros Hlen. unfold simulate_trial. rewrite bind_Ok.
  intros ([[hs cc] rest] & Hdeal & Hscore).
  apply bind_Ok in Hscore as (scores & Hscores & Htrial).
  apply score_players_length in Hscores.
  pose proof (deal_trial_spec v shuffled) as Hspec. rewrite Hdeal in Hspec.
  destruct Hspec as (dh & dc & HF & _ & -> & _).
  apply Forall2_length in HF.
  rewrite length_zip_with_l_eq in Hscores by done.
  unfold score_trial in Htrial.
  destruct scores as [|s scores]; [done|]. simpl in Htrial.
  injection Htrial as <-.
  destruct (foldl_min_spec s scores) as [Hin _].
  destruct (winners_of_bounds (s :: scores) _ Hin) as (Hne & Hlt & Hle).
  rewrite Hscores, <- Hlen in Hlt, Hle.
  unfold record_outcome.
  destruct (winners_of (s :: scores) (foldl Z.min s scores))
    as [|w [|w' ws]] eqn:Hw; [done| |].
  - apply Forall_cons in Hlt as [Hlt _].
    destruct (totals_alter_add_win w player_results Hlt) as [H1 H2].
    exists 1. split_and!; [lia|lia|done|lia|]. rewrite H2.
    replace (1 - 1) with 0 by lia. lia.
  - destruct (totals_foldl_add_tie (w :: w' :: ws) player_results Hlt)
      as [H1 H2].
    exists 0. split_and!; [lia|lia|lia| |].
    + rewrite H2. simpl length. lia.
    + rewrite H2. simpl length in *. lia.
Qed.

Lemma tallied_trans (j k players : Z) (l1 l2 l3 : list counters) :
  0 ≤ players →
  tallied j players l1 l2 → tallied k players l2 l3 →
  tallied (j + k) players l1 l3.
Proof.
  intros Hp (w1 & Hw1 & Hwins1 & Hlo1 & Hhi1) (w2 & Hw2 & Hwins2 & Hlo2 & Hhi2).
  exists (w1 + w2). split_and!; [lia|lia|lia|lia|].
  replace (players * (j + k - (w1 + w2)))
    with (players * (j - w1) + players * (k - w2)) by ring.
  lia.
Qed.

Lemma run_trials_tallied (shuffles : nat → list card) (v : known)
    (todo started started' : nat) (player_results player_results' : list counters) :
  length player_results = length (player_hands_deuces_initial v) →
  run_trials shuffles v todo started player_results
    = (Ok player_results', started') →
  tallied (Z.of_nat todo) (Z.of_nat (length player_results))
          player_results player_results'.
Proof.
  revert started player_results.
  induction todo as [|todo IH]; intros started player_results Hlen; simpl.
  { intros [= <- _]. exists 0. split_and!; lia. }
  destruct (simulate_trial v (shuffles started) player_results)
    as [player_results1|e] eqn:Htrial; [|done].
  intros Hrun.
  pose proof (simulate_trial_tallied _ _ _ _ Hlen Htrial) as H1.
  destruct (simulate_trial_advanced _ _ _ _ Htrial) as [Hadv _].
  apply Forall2_length in Hadv.
  apply IH in Hrun; [|congruence]. rewrite <- Hadv in Hrun.
  replace (Z.of_nat (S todo)) with (1 + Z.of_nat todo) by lia.
  eapply tallied_trans; [lia|done|done].
Qed.

Lemma total_ties_replicate (n : nat) : total_ties (replicate n (Counters 0 0)) = 0.
Proof. induction n as [|n IH]; [done|]. exact IH. Qed.

(** X5. Over a call that completes, every trial is counted exactly once:
    either as a win of one player or as a tie of at least two players. So
    with [W] the wins of all players and [T] their ties after [trials]
    trials among [n] players, [W <= trials] and
    [2 * (trials - W) <= T <= n * (trials - W)]: no trial is lost, and no
    player is ever alone in a tie. *)
Theorem every_trial_counted_once
    (player_hands_str_initial : list (list string))
    (community_cards_str_initial : list string)
    (num_total_players num_simulations : Z) (shuffles : nat → list card)
    (final : list percentages) (started : nat) :
  run_simulation player_hands_str_initial community_cards_str_initial
                 num_total_players num_simulations shuffles
    = (Ok final, started) →
  ∃ v counts,
    validate player_hands_str_initial community_cards_str_initial
             num_total_players = Ok v
    ∧ run_trials shuffles v (range_len num_simulations) 0
                 (replicate (range_len num_total_players) (Counters 0 0))
      = (Ok counts, started)
    ∧ final = percentages_of num_simulations <$> counts
    ∧ 0 ≤ total_wins counts ≤ Z.of_nat started
    ∧ 2 * (Z.of_nat started - total_wins counts) ≤ total_ties counts
    ∧ total_ties counts
      ≤ Z.of_nat (range_len num_total_players)
        * (Z.of_nat started - total_wins counts).
Proof.
  unfold run_simulation.
  destruct (validate _ _ _) as [v|e] eqn:Hval; [|done].
  pose proof (validate_Ok_cards _ _ _ _ Hval) as (_ & _ & Hlen & _).
  pose proof (run_trials_spec shuffles v (range_len num_simulations) 0
                (replicate (range_len num_total_players) (Counters 0 0)))
    as Hspec.
  destruct (run_trials _ _ _ _ _) as [[counts|e] started'] eqn:Hrun; [|done].
  destruct Hspec as [-> _].
  apply run_trials_tallied in Hrun as Htally;
    [|by rewrite length_replicate].
  rewrite length_replicate in Htally.
  destruct Htally as (w & Hw & Hwins & Hlo & Hhi).
  rewrite total_wins_replicate in Hwins.
  rewrite total_ties_replicate in Hlo, Hhi.
  rewrite final_results_spec. case_decide; [done|]. intros [= <- <-].
  exists v, counts. simpl. split_and!; try done; lia.
Qed.


(** ** Who gets which card, and when the deck runs out *)

Lemma deal_hands_positions (hands : list (list card)) (deck : list card)
    (hands' : list (list card)) (deck' : list card) :
  deal_hands hands deck = Ok (hands', deck') →
  deck' = drop (hole_cards_missing hands) deck
  ∧ ∀ p hand,
      hands !! p = Some hand →
      hands' !! p
      = Some (hand ++ take (2 - length hand)
                           (drop (hole_cards_missing (take p hands)) deck)).
Proof.
  revert deck hands' deck'.
  induction hands as [|h rest IH]; intros deck hands' deck'.
  { intros [= <- <-]. split; [done|]. by intros p hand ?. }
  cbn [deal_hands]. rewrite draw_missing_spec.
  destruct (decide (2 - length h ≤ length deck)%nat) as [Hle|Hgt]; [|done].
  simpl. rewrite bind_Ok. intros ([rest' deck2] & Hrest & [= <- <-]).
  apply IH in Hrest as [-> Hpos].
  change (hole_cards_missing (h :: rest))
    with ((2 - length h) + hole_cards_missing rest)%nat.
  split; [by rewrite drop_drop|].
  intros [|p] hand Hp; simpl in Hp.
  - injection Hp as <-. done.
  - simpl lookup. rewrite (Hpos p hand Hp). do 2 f_equal.
    cbn [take].
    change (hole_cards_missing (h :: take p rest))
      with ((2 - length h) + hole_cards_missing (take p rest))%nat.
    by rewrite drop_drop.
Qed.

(** X6. The deck is dealt from its front in a fixed order: the players in
    ascending index, each receiving the cards that are missing to two, then
    the board. Player [p] gets the cards right after those dealt to the
    players before him, the board gets the cards right after the hole cards
    of all players, and what is left of the deck is the rest. *)
Theorem cards_dealt_in_player_order (v : known) (shuffled : list card)
    (sim_player_hands : list (list card))
    (sim_community_cards rest : list card) :
  deal_trial v shuffled = Ok (sim_player_hands, sim_community_cards, rest) →
  (∀ p hand,
      player_hands_deuces_initial v !! p = Some hand →
      sim_player_hands !! p
      = Some (hand
              ++ take (2 - length hand)
                   (drop (hole_cards_missing
                            (take p (player_hands_deuces_initial v)))
                         (restrict_deck (known_cards_deuces v) shuffled))))
  ∧ sim_community_cards
    = community_cards_deuces_initial v
      ++ take (5 - length (community_cards_deuces_initial v))
           (drop (hole_cards_missing (player_hands_deuces_initial v))
                 (restrict_deck (known_cards_deuces v) shuffled))
  ∧ rest
    = drop (hole_cards_missing (player_hands_deuces_initial v)
            + (5 - length (community_cards_deuces_initial v)))
           (restrict_deck (known_cards_deuces v) shuffled).
Proof.
  unfold deal_trial, deal_community. rewrite bind_Ok.
  intros ([hs deck1] & Hhands & Hboard).
  apply deal_hands_positions in Hhands as [-> Hpos].
  rewrite draw_missing_spec in Hboard.
  destruct (decide _) as [Hle|Hgt]; [|done]. simpl in Hboard.
  injection Hboard as <- <- <-. split_and!; [done|done|].
  by rewrite drop_drop.
Qed.

Lemma deal_trial_cases (v : known) (shuffled : list card) :
  match deal_trial v shuffled with
  | Ok _ =>
      (hole_cards_missing (player_hands_deuces_initial v)
       + (5 - length (community_cards_deuces_initial v))
       ≤ length (restrict_deck (known_cards_deuces v) shuffled))%nat
  | Raise e =>
      (e = DeckExhaustedHands
       ∧ (length (restrict_deck (known_cards_deuces v) shuffled)
          < hole_cards_missing (player_hands_deuces_initial v))%nat)
      ∨ (e = DeckExhaustedCommunity
         ∧ (hole_cards_missing (player_hands_deuces_initial v)
            ≤ length (restrict_deck (known_cards_deuces v) shuffled)
            < hole_cards_missing (player_hands_deuces_initial v)
              + (5 - length (community_cards_deuces_initial v)))%nat)
  end.
Proof.
  unfold deal_trial, deal_community.
  pose proof (deal_hands_spec (player_hands_deuces_initial v)
                (restrict_deck (known_cards_deuces v) shuffled)) as Hh.
  destruct (deal_hands _ _) as [[hs deck1]|e]; simpl.
  2:{ left. done. }
  destruct Hh as (drawn & HF & _ & Hdeck).
  apply drawn_hands_length in HF.
  rewrite draw_missing_spec. rewrite Hdeck, length_app, HF.
  destruct (decide (_ ≤ length deck1)%nat) as [Hle|Hgt]; simpl; [lia|].
  right. split; [done|lia].
Qed.

(** X7. A trial fails on the deck exactly when the deck, the 52 cards
    without the known ones, is too short: with the error raised while
    dealing hole cards when it has fewer cards than the players still miss,
    with the error raised while dealing the board when it covers the hole
    cards but not the board as well; otherwise the dealing succeeds. *)
Theorem deck_exhaustion (v : known) (shuffled : list card) :
  (deal_trial v shuffled = Raise DeckExhaustedHands ↔
   (length (restrict_deck (known_cards_deuces v) shuffled)
    < hole_cards_missing (player_hands_deuces_initial v))%nat)
  ∧ (deal_trial v shuffled = Raise DeckExhaustedCommunity ↔
     (hole_cards_missing (player_hands_deuces_initial v)
      ≤ length (restrict_deck (known_cards_deuces v) shuffled)
      < hole_cards_missing (player_hands_deuces_initial v)
        + (5 - length (community_cards_deuces_initial v)))%nat)
  ∧ (is_Ok (deal_trial v shuffled) ↔
     (hole_cards_missing (player_hands_deuces_initial v)
      + (5 - length (community_cards_deuces_initial v))
      ≤ length (restrict_deck (known_cards_deuces v) shuffled))%nat)
  ∧ (shuffled ≡ₚ full_deck →
     (length (restrict_deck (known_cards_deuces v) shuffled)
      + size (known_cards_deuces v) = 52)%nat).
Proof.
  pose proof (deal_trial_cases v shuffled) as Hcases.
  destruct (deal_trial v shuffled) as [r|e].
  - split_and!.
    + split; [done|lia].
    + split; [done|lia].
    + split; [done|]. intros _. by eexists.
    + intros Hp. by apply restrict_deck_spec.
  - split_and!.
    + split.
      * intros [= ->]. destruct Hcases as [[_ ?]|[[=] _]]. done.
      * intros Hlt. destruct Hcases as [[-> _]|[_ ?]]; [done|lia].
    + split.
      * intros [= ->]. destruct Hcases as [[[=] _]|[_ ?]]. done.
      * intros Hlt. destruct Hcases as [[_ ?]|[-> _]]; [lia|done].
    + split; [by intros [? [=]]|]. intros Hle.
      destruct Hcases as [[_ ?]|[_ ?]]; lia.
    + intros Hp. by apply restrict_deck_spec.
Qed.

(** ** Texts that are not cards in the evaluation entry point *)

Lemma parse_cards_app (l1 l2 : list string) :
  parse_cards (l1 ++ l2)
  = cards1 ← parse_cards l1; cards2 ← parse_cards l2; Ok (cards1 ++ cards2).
Proof.
  induction l1 as [|s l1 IH]; simpl.
  - by destruct (parse_cards l2).
  - destruct (card_str_to_deuces_card s); simpl; [|done]. rewrite IH.
    destruct (parse_cards l1); simpl; [|done].
    by destruct (parse_cards l2).
Qed.

Lemma parse_cards_invalid (pre post : list string) (card_s : string) (e : error) :
  Forall valid_text pre →
  card_str_to_deuces_card card_s = Raise e →
  parse_cards (pre ++ card_s :: post) = Raise e.
Proof.
  intros Hv He. induction Hv as [|s pre [c Hc] _ IH]; simpl.
  - by rewrite He.
  - apply text_card_Some in Hc. rewrite Hc. simpl. by rewrite IH.
Qed.

(** X8. [get_hand_strength] given two hole texts and at most five community
    texts converts the hole texts first and the community texts next, and
    the first text that is not a card makes it fail with the error of that
    text, before any evaluation. An empty text is not skipped here, as it is
    in [run_simulation]: it fails with the format error. *)
Theorem hand_strength_invalid_text
    (hole_cards_str community_cards_str pre post : list string)
    (card_s : string) (e : error) :
  length hole_cards_str = 2%nat →
  (length community_cards_str ≤ 5)%nat →
  hole_cards_str ++ community_cards_str = pre ++ card_s :: post →
  Forall valid_text pre →
  card_str_to_deuces_card card_s = Raise e →
  get_hand_strength hole_cards_str community_cards_str = Raise e
  ∧ (card_s = "" → e = InvalidCardFormat "").
Proof.
  intros Hl2 Hl5 Hsplit Hvalid He. split.
  - pose proof (parse_cards_invalid pre post card_s e Hvalid He) as Hall.
    rewrite <- Hsplit, parse_cards_app in Hall.
    unfold get_hand_strength.
    destruct hole_cards_str as [|h1 hs]; [done|].
    rewrite bool_decide_eq_false_2 by done. rewrite Hl2.
    cbn [Nat.eqb negb orb].
    rewrite (proj2 (Nat.leb_le _ _) Hl5). cbn [negb].
    destruct (parse_cards (h1 :: hs)) as [hole|e1]; simpl in *.
    + destruct (parse_cards community_cards_str) as [community|e2];
        simpl in *; [done|]. by injection Hall as ->.
    + by injection Hall as ->.
  - intros ->. by injection He as <-.
Qed.


(** ** The caller: [PokerOddsApp.calculate_odds] of [app.py] *)

(** What [calculate_odds] leaves on the screen: one of its four warnings,
    the odds of the first player, the error dialog for an empty result, or
    the error dialog of one of its two exception handlers, which differ in
    their title only. The state of the button and the console output are
    left out. *)
Inductive odds_outcome :=
  | WarnNoHoleCard                        (* line 127 *)
  | WarnCommunityCount                    (* line 141 *)
  | WarnOpponentsRange                    (* line 147 *)
  | WarnOpponentsNotANumber               (* line 150 *)
  | ShowOdds (hero_results : percentages) (* lines 175 to 178 *)
  | ShowNoResult                          (* line 180 *)
  | ShowError (e : error).                (* lines 183 and 185 *)

(** The arguments of a call of [run_simulation]. *)
Record simulation_call := SimulationCall {
  call_player_hands : list (list string);
  call_community_cards : list string;
  call_num_total_players : Z;
  call_num_simulations : Z
}.

(** [int(text)] of Python, [None] where it raises [ValueError]. *)
Variable py_int : string → option Z.

(** Lines 123 to 158 of [app.py]: the selections of the two hole-card boxes,
    of the community boxes and the text of the opponents box are turned into
    the arguments of the simulation, or into a warning. *)
Definition prepare_odds (card1 card2 : string)
    (community_card_vars : list string) (num_opponents_var : string)
  : odds_outcome + simulation_call :=
  let your_hand := stated [card1; card2] in
  let community_cards := stated community_card_vars in
  if (length your_hand =? 0)%nat then inl WarnNoHoleCard
  else
    let your_hand_for_sim :=
      if (length your_hand =? 1)%nat
      then if bool_decide (card1 ≠ "") then [card1; ""] else [""; card2]
      else your_hand in
    let num_community_cards := length community_cards in
    if negb (bool_decide (num_community_cards ∈ [0; 3; 4; 5]%nat))
    then inl WarnCommunityCount
    else
      match py_int num_opponents_var with
      | None => inl WarnOpponentsNotANumber
      | Some num_opponents =>
          if negb ((1 <=? num_opponents) && (num_opponents <=? 8))
          then inl WarnOpponentsRange
          else inr (SimulationCall [your_hand_for_sim] community_cards
                                   (1 + num_opponents) 5000)
      end.

(** Lines 122 to 187 of [app.py]. *)
Definition calculate_odds (card1 card2 : string)
    (community_card_vars : list string) (num_opponents_var : string)
    (shuffles : nat → list card) : odds_outcome :=
  match prepare_odds card1 card2 community_card_vars num_opponents_var with
  | inl warning => warning
  | inr call =>
      match run_simulation (call_player_hands call) (call_community_cards call)
                           (call_num_total_players call)
                           (call_num_simulations call) shuffles with
      | (Ok results, _) =>
          match results with
          | hero_results :: _ => ShowOdds hero_results
          | [] => ShowNoResult
          end
      | (Raise e, _) => ShowError e
      end
  end.

Lemma stated_pair (c1 c2 : string) :
  stated [c1; c2]
  = (if decide (c1 = "") then [] else [c1]) ++ (if decide (c2 = "") then [] else [c2]).
Proof.
  unfold stated.
  destruct (decide (c1 = "")) as [->|H1], (decide (c2 = "")) as [->|H2].
  - rewrite !filter_cons_False by (intros H; by apply H). done.
  - rewrite filter_cons_False by (intros H; by apply H).
    by rewrite filter_cons_True.
  - rewrite filter_cons_True by done.
    by rewrite filter_cons_False by (intros H; by apply H).
  - by rewrite !filter_cons_True.
Qed.

Lemma prepare_odds_call (card1 card2 : string)
    (community_card_vars : list string) (num_opponents_var : string)
    (call : simulation_call) :
  prepare_odds card1 card2 community_card_vars num_opponents_var = inr call →
  ∃ your_hand_for_sim num_opponents,
    call = SimulationCall [your_hand_for_sim] (stated community_card_vars)
                          (1 + num_opponents) 5000
    ∧ py_int num_opponents_var = Some num_opponents
    ∧ 1 ≤ num_opponents ≤ 8
    ∧ length your_hand_for_sim = 2%nat
    ∧ stated your_hand_for_sim = stated [card1; card2]
    ∧ stated [card1; card2] ≠ []
    ∧ length (stated community_card_vars) ∈ [0; 3; 4; 5]%nat.
Proof.
  unfold prepare_odds.
  destruct (stated [card1; card2]) as [|c1 hand] eqn:Hhand; [done|].
  cbn [length Nat.eqb]. cbv zeta.
  case_bool_decide as Hcount; [|done]. cbn [negb].
  destruct (py_int num_opponents_var) as [num_opponents|]; [|done].
  destruct (Z.leb_spec 1 num_opponents); [|done].
  destruct (Z.leb_spec num_opponents 8); [|done]. cbn [andb negb].
  intros [= <-]. eexists _, num_opponents.
  split_and!; [reflexivity|done|lia|lia| | |done|done].
  - rewrite stated_pair in Hhand.
    destruct (decide (card1 = "")) as [->|H1], (decide (card2 = "")) as [->|H2];
      simplify_eq/=; try done; by try case_bool_decide.
  - rewrite stated_pair in Hhand.
    destruct (decide (card1 = "")) as [->|H1], (decide (card2 = "")) as [->|H2];
      simplify_eq/=; try done; try case_bool_decide; try done;
      cbn [app]; rewrite !stated_pair;
      repeat (first [rewrite decide_True by done | rewrite decide_False by done]);
      done.
Qed.


(** The texts read from a list with the entry of the first player only. *)
Lemma player_texts_single (hand : list string) (count : nat) :
  concat (player_texts [hand] 0 (S count)) = stated hand.
Proof.
  unfold player_texts. cbn [seq fmap list_fmap concat].
  change (entry_of [hand] 0) with hand.
  assert (∀ start, concat (list_fmap _ _ (λ p, stated (entry_of [hand] p))
                             (seq (S start) count)) = []) as ->.
  { induction count as [|count IH]; intros start; [done|].
    cbn [seq list_fmap concat]. rewrite IH. done. }
  by rewrite app_nil_r.
Qed.

Lemma known_texts_single (hand community_cards_str_initial : list string)
    (num_total_players : Z) :
  1 ≤ num_total_players →
  known_texts [hand] community_cards_str_initial num_total_players
  = stated hand ++ stated community_cards_str_initial.
Proof.
  intros Hn. unfold known_texts, range_len.
  destruct (Z.to_nat num_total_players) as [|count] eqn:Hc; [lia|].
  by rewrite player_texts_single.
Qed.

(** Two calls that state the same cards for every player and for the board
    are the same call. *)
Lemma run_simulation_same_texts (hands1 hands2 : list (list string))
    (community1 community2 : list string)
    (num_total_players num_simulations : Z) (shuffles : nat → list card) :
  (∀ p, (p < range_len num_total_players)%nat →
        stated (entry_of hands1 p) = stated (entry_of hands2 p)) →
  stated community1 = stated community2 →
  run_simulation hands1 community1 num_total_players num_simulations shuffles
  = run_simulation hands2 community2 num_total_players num_simulations
                   shuffles.
Proof.
  intros Hhands Hcomm. unfold run_simulation. rewrite !validate_flat.
  unfold known_texts.
  assert (player_texts hands1 0 (range_len num_total_players)
          = player_texts hands2 0 (range_len num_total_players)) as ->.
  { unfold player_texts. apply list_eq. intros p.
    rewrite !list_lookup_fmap.
    destruct (decide (p < range_len num_total_players)%nat).
    - rewrite lookup_seq_lt by done. simpl. by rewrite Hhands.
    - by rewrite lookup_ge_None_2 by (rewrite length_seq; lia). }
  by rewrite Hcomm.
Qed.

Lemma run_simulation_hero (hand1 hand2 : list string)
    (community_cards_str_initial : list string)
    (num_total_players num_simulations : Z) (shuffles : nat → list card) :
  stated hand1 = stated hand2 →
  run_simulation [hand1] community_cards_str_initial num_total_players
                 num_simulations shuffles
  = run_simulation [hand2] community_cards_str_initial num_total_players
                   num_simulations shuffles.
Proof.
  intros Hhand. apply run_simulation_same_texts; [|done].
  intros [|p] _; [done|]. done.
Qed.

Lemma texts_cards_length_le (card_strs : list string) :
  (length (texts_cards card_strs) ≤ length card_strs)%nat.
Proof.
  unfold texts_cards. induction card_strs as [|s l IH]; [done|].
  change (omap text_card (s :: l))
    with (match text_card s with
          | Some c => c :: omap text_card l
          | None => omap text_card l
          end).
  destruct (text_card s); cbn [length]; lia.
Qed.

(** What the simulation does on the arguments that [calculate_odds] hands
    to it, for shuffles of the full deck: it fails on the selected texts
    before any trial, or it runs the 5000 trials and returns one entry per
    player. *)
Lemma simulation_of_selection (hand community_cards : list string)
    (num_opponents : Z) (shuffles : nat → list card) :
  (∀ k, shuffles k ≡ₚ full_deck) →
  (length (stated hand) ≤ 2)%nat →
  (length (stated community_cards) ≤ 5)%nat →
  1 ≤ num_opponents ≤ 8 →
  (Forall valid_text (stated hand ++ stated community_cards)
   ∧ NoDup (texts_cards (stated hand ++ stated community_cards))
   ∧ ∃ hero_results rest,
       run_simulation [hand] community_cards (1 + num_opponents) 5000 shuffles
       = (Ok (hero_results :: rest), 5000%nat)
       ∧ length rest = Z.to_nat num_opponents)
  ∨ (¬ (Forall valid_text (stated hand ++ stated community_cards)
        ∧ NoDup (texts_cards (stated hand ++ stated community_cards)))
     ∧ ∃ e card_s,
         run_simulation [hand] community_cards (1 + num_opponents) 5000
                        shuffles = (Raise e, 0%nat)
         ∧ card_s ∈ stated hand ++ stated community_cards
         ∧ (e = InvalidCardFormat card_s ∨ e = InvalidCard card_s
            ∨ e = DuplicateCard card_s)).
Proof.
  clear get_rank_class class_to_string py_int.
  intros Hperm Hhand Hcomm Hopp.
  destruct (validate [hand] community_cards (1 + num_opponents))
    as [v|e] eqn:Hval.
  - left. pose proof Hval as Hok.
    apply validate_Ok in Hok as (Hvalid & Hnd & _ & _).
    rewrite known_texts_single in Hvalid, Hnd by lia.
    split_and!; [done|done|].
    destruct (run_simulation_completes [hand] community_cards
                (1 + num_opponents) 5000 shuffles v Hval Hperm)
      as (final & Hrun & Hlen); [|lia|lia|lia|].
    { intros [|p] _; [done|]. simpl. lia. }
    unfold range_len in Hlen.
    destruct final as [|hero_results rest]; [simpl in Hlen; lia|].
    exists hero_results, rest. split; [exact Hrun|].
    simpl in Hlen. lia.
  - right. split.
    + intros [Hvalid Hnd].
      assert (validate [hand] community_cards (1 + num_opponents)
              = Ok (Known
                      (texts_cards
                         <$> player_texts [hand] 0
                               (range_len (1 + num_opponents)))
                      (texts_cards (stated community_cards))
                      (list_to_set
                         (texts_cards
                            (known_texts [hand] community_cards
                                         (1 + num_opponents))))));
        [|congruence].
      apply validate_Ok. rewrite known_texts_single by lia.
      split_and!; [done|done| |done].
      pose proof (texts_cards_length_le (stated community_cards)). lia.
    + unfold run_simulation. rewrite Hval.
      rewrite validate_flat in Hval. rewrite known_texts_single in Hval by lia.
      destruct (add_known_cards _ ∅) as [[cs k]|e'] eqn:Hadd.
      * cbv zeta in Hval.
        destruct (Nat.ltb_spec 5 (length (texts_cards (stated community_cards))))
          as [Hlt|]; [|done].
        pose proof (texts_cards_length_le (stated community_cards)). lia.
      * injection Hval as <-.
        apply add_known_cards_Raise in Hadd as (card_s & Hs & He).
        rewrite stated_app, !stated_idemp in Hs. eauto.
Qed.


(** The guards of [calculate_odds], in the order in which they are
    checked. *)
Lemma prepare_odds_cases (card1 card2 : string)
    (community_card_vars : list string) (num_opponents_var : string) :
  match prepare_odds card1 card2 community_card_vars num_opponents_var with
  | inl outcome =>
      (outcome = WarnNoHoleCard ∧ stated [card1; card2] = [])
      ∨ (outcome = WarnCommunityCount ∧ stated [card1; card2] ≠ []
         ∧ length (stated community_card_vars) ∉ [0; 3; 4; 5]%nat)
      ∨ (outcome = WarnOpponentsNotANumber ∧ stated [card1; card2] ≠ []
         ∧ length (stated community_card_vars) ∈ [0; 3; 4; 5]%nat
         ∧ py_int num_opponents_var = None)
      ∨ (outcome = WarnOpponentsRange ∧ stated [card1; card2] ≠ []
         ∧ length (stated community_card_vars) ∈ [0; 3; 4; 5]%nat
         ∧ ∃ num_opponents, py_int num_opponents_var = Some num_opponents
                            ∧ ¬ 1 ≤ num_opponents ≤ 8)
  | inr call =>
      ∃ your_hand_for_sim num_opponents,
        call = SimulationCall [your_hand_for_sim] (stated community_card_vars)
                              (1 + num_opponents) 5000
        ∧ py_int num_opponents_var = Some num_opponents
        ∧ 1 ≤ num_opponents ≤ 8
        ∧ length your_hand_for_sim = 2%nat
        ∧ stated your_hand_for_sim = stated [card1; card2]
        ∧ stated [card1; card2] ≠ []
        ∧ length (stated community_card_vars) ∈ [0; 3; 4; 5]%nat
  end.
Proof.
  destruct (prepare_odds _ _ _ _) as [outcome|call] eqn:Hprep;
    [|by apply prepare_odds_call].
  revert Hprep. unfold prepare_odds.
  destruct (stated [card1; card2]) as [|c1 hand] eqn:Hhand.
  { intros [= <-]. by left. }
  cbn [length Nat.eqb]. cbv zeta.
  case_bool_decide as Hcount; cbn [negb].
  2:{ intros [= <-]. right. left. done. }
  destruct (py_int num_opponents_var) as [num_opponents|].
  2:{ intros [= <-]. right. right. left. done. }
  destruct (Z.leb_spec 1 num_opponents);
    [destruct (Z.leb_spec num_opponents 8)|]; cbn [andb negb]; [done| |];
    intros [= <-]; right; right; right;
    (split_and!; [done|done|done|]); exists num_opponents; (split; [done|lia]).
Qed.

Lemma selection_at_most_two (card1 card2 : string) :
  (length (stated [card1; card2]) ≤ 2)%nat.
Proof.
  rewrite stated_pair.
  destruct (decide (card1 = "")), (decide (card2 = "")); simpl; lia.
Qed.

Lemma community_count_at_most_five (community_card_vars : list string) :
  length (stated community_card_vars) ∈ [0; 3; 4; 5]%nat →
  (length (stated community_card_vars) ≤ 5)%nat.
Proof.
  intros Hin. repeat (apply elem_of_cons in Hin as [->|Hin]; [lia|]).
  by apply elem_of_nil in Hin.
Qed.

(** X9. With shuffles of the full deck, the error dialogs of
    [calculate_odds] come from the selected texts only: the dialog for an
    empty result is never shown, and an exception of the simulation is the
    format, invalid-card or duplicate-card error of one of the selected
    texts. The deck never runs out, no score list is empty, nothing is
    divided by zero and the community cards are never too many, once the
    guards of [calculate_odds] have passed. *)
Theorem odds_errors_come_from_selected_texts (card1 card2 : string)
    (community_card_vars : list string) (num_opponents_var : string)
    (shuffles : nat → list card) :
  (∀ k, shuffles k ≡ₚ full_deck) →
  calculate_odds card1 card2 community_card_vars num_opponents_var shuffles
    ≠ ShowNoResult
  ∧ ∀ e,
      calculate_odds card1 card2 community_card_vars num_opponents_var
                     shuffles = ShowError e →
      ∃ card_s,
        card_s ∈ stated [card1; card2] ++ stated community_card_vars
        ∧ (e = InvalidCardFormat card_s ∨ e = InvalidCard card_s
           ∨ e = DuplicateCard card_s).
Proof.
  clear get_rank_class class_to_string.
  intros Hperm. unfold calculate_odds.
  pose proof (prepare_odds_cases card1 card2 community_card_vars
                num_opponents_var) as Hcases.
  destruct (prepare_odds _ _ _ _) as [outcome|call].
  { split;
      [|intros e];
      destruct Hcases as [[-> _]|[[-> _]|[[-> _]|[-> _]]]]; done. }
  destruct Hcases
    as (hand & num_opponents & -> & _ & Hopp & _ & Hhand & _ & Hcount).
  cbn [call_player_hands call_community_cards call_num_total_players
       call_num_simulations].
  destruct (simulation_of_selection hand (stated community_card_vars)
              num_opponents shuffles Hperm)
    as [(_ & _ & hero & rest & -> & _)|(_ & e' & card_s & -> & Hs & He)].
  - rewrite Hhand. apply selection_at_most_two.
  - rewrite stated_idemp. by apply community_count_at_most_five.
  - done.
  - done.
  - split; [done|]. intros e [= <-]. exists card_s.
    by rewrite Hhand, stated_idemp in Hs.
Qed.

(** X10. With shuffles of the full deck, [calculate_odds] shows odds
    exactly when at least one hole card is selected, the number of selected
    community cards is 0, 3, 4 or 5, the opponents box holds a number from 1
    to 8, every selected text is a card and the selected cards are pairwise
    distinct. The odds shown are then the first entry of the result of 5000
    trials among the hero and the opponents, which has one entry per
    player. *)
Theorem odds_shown_iff (card1 card2 : string)
    (community_card_vars : list string) (num_opponents_var : string)
    (shuffles : nat → list card) :
  (∀ k, shuffles k ≡ₚ full_deck) →
  ((∃ hero_results,
      calculate_odds card1 card2 community_card_vars num_opponents_var
                     shuffles = ShowOdds hero_results) ↔
   stated [card1; card2] ≠ []
   ∧ length (stated community_card_vars) ∈ [0; 3; 4; 5]%nat
   ∧ (∃ num_opponents, py_int num_opponents_var = Some num_opponents
                       ∧ 1 ≤ num_opponents ≤ 8)
   ∧ Forall valid_text (stated [card1; card2] ++ stated community_card_vars)
   ∧ NoDup (texts_cards
              (stated [card1; card2] ++ stated community_card_vars)))
  ∧ ∀ hero_results,
      calculate_odds card1 card2 community_card_vars num_opponents_var
                     shuffles = ShowOdds hero_results →
      ∃ num_opponents rest,
        py_int num_opponents_var = Some num_opponents
        ∧ run_simulation [[card1; card2]] community_card_vars
                         (1 + num_opponents) 5000 shuffles
          = (Ok (hero_results :: rest), 5000%nat)
        ∧ length rest = Z.to_nat num_opponents.
Proof.
  clear get_rank_class class_to_string.
  intros Hperm. unfold calculate_odds.
  pose proof (prepare_odds_cases card1 card2 community_card_vars
                num_opponents_var) as Hcases.
  destruct (prepare_odds _ _ _ _) as [outcome|call].
  { split; [split|].
    - intros [hero Hhero].
      destruct Hcases as [[-> _]|[[-> _]|[[-> _]|[-> _]]]]; done.
    - intros (Hhand & Hcount & (num_opponents & Hint & Hopp) & _). exfalso.
      destruct Hcases
        as [[_ ?]|[(_ & _ & ?)|[(_ & _ & _ & ?)|(_ & _ & _ & k & ? & ?)]]];
        [done|done|congruence|].
      assert (k = num_opponents) as -> by congruence. done.
    - intros hero Hhero.
      destruct Hcases as [[-> _]|[[-> _]|[[-> _]|[-> _]]]]; done. }
  destruct Hcases
    as (hand & num_opponents & -> & Hint & Hopp & _ & Hhand & Hne & Hcount).
  cbn [call_player_hands call_community_cards call_num_total_players
       call_num_simulations].
  assert (run_simulation [hand] (stated community_card_vars)
                         (1 + num_opponents) 5000 shuffles
          = run_simulation [[card1; card2]] community_card_vars
                           (1 + num_opponents) 5000 shuffles) as Hsame.
  { apply run_simulation_same_texts; [|apply stated_idemp].
    intros [|p] _; [exact Hhand|done]. }
  destruct (simulation_of_selection hand (stated community_card_vars)
              num_opponents shuffles Hperm)
    as [(Hvalid & Hnd & hero & rest & Hrun & Hlen)
       |(Hnot & e' & card_s & Hrun & _)].
  - rewrite Hhand. apply selection_at_most_two.
  - rewrite stated_idemp. by apply community_count_at_most_five.
  - done.
  - rewrite Hhand, stated_idemp in Hvalid, Hnd. rewrite Hrun. split; [split|].
    + intros _. split_and!; [done|done|by exists num_opponents|done|done].
    + intros _. by exists hero.
    + intros ? [= <-]. exists num_opponents, rest.
      split_and!; [done| |done]. by rewrite <- Hsame.
  - rewrite Hhand, stated_idemp in Hnot. rewrite Hrun. split; [split|].
    + by intros [hero ?].
    + intros (_ & _ & _ & ? & ?). by destruct Hnot.
    + done.
Qed.

(** X11. Each warning of [calculate_odds] has its own condition, and the
    conditions are checked in this order: no hole card selected; the number
    of selected community cards is not 0, 3, 4 or 5; the text of the
    opponents box is not a number; the number is not from 1 to 8. A warning
    is shown whatever the later inputs are, and the simulation is not run. *)
Theorem odds_warnings (card1 card2 : string)
    (community_card_vars : list string) (num_opponents_var : string)
    (shuffles : nat → list card) :
  (calculate_odds card1 card2 community_card_vars num_opponents_var shuffles
   = WarnNoHoleCard ↔ card1 = "" ∧ card2 = "")
  ∧ (calculate_odds card1 card2 community_card_vars num_opponents_var shuffles
     = WarnCommunityCount ↔
     ¬ (card1 = "" ∧ card2 = "")
     ∧ length (stated community_card_vars) ∉ [0; 3; 4; 5]%nat)
  ∧ (calculate_odds card1 card2 community_card_vars num_opponents_var shuffles
     = WarnOpponentsNotANumber ↔
     ¬ (card1 = "" ∧ card2 = "")
     ∧ length (stated community_card_vars) ∈ [0; 3; 4; 5]%nat
     ∧ py_int num_opponents_var = None)
  ∧ (calculate_odds card1 card2 community_card_vars num_opponents_var shuffles
     = WarnOpponentsRange ↔
     ¬ (card1 = "" ∧ card2 = "")
     ∧ length (stated community_card_vars) ∈ [0; 3; 4; 5]%nat
     ∧ ∃ num_opponents, py_int num_opponents_var = Some num_opponents
                        ∧ ¬ 1 ≤ num_opponents ≤ 8).
Proof.
  clear get_rank_class class_to_string.
  assert (stated [card1; card2] = [] ↔ card1 = "" ∧ card2 = "") as Hnone.
  { rewrite stated_pair.
    destruct (decide (card1 = "")), (decide (card2 = "")); simpl;
      split; try done; intros [? ?]; done. }
  unfold calculate_odds.
  pose proof (prepare_odds_cases card1 card2 community_card_vars
                num_opponents_var) as Hcases.
  destruct (prepare_odds _ _ _ _) as [outcome|call].
  - rewrite <- Hnone.
    destruct Hcases
      as [[-> ?]|[(-> & ? & ?)|[(-> & ? & ? & ?)|(-> & ? & ? & k & ? & ?)]]];
      split_and!; naive_solver congruence.
  - destruct Hcases
      as (hand & num_opponents & -> & Hint & Hopp & _ & _ & Hne & Hcount).
    rewrite <- Hnone.
    cbn [call_player_hands call_community_cards call_num_total_players
         call_num_simulations].
    destruct (run_simulation _ _ _ _ _) as [[[|hero rest]|e] started];
      split_and!; naive_solver congruence.
Qed.

(** X12. A single selected hole card gives the same outcome in either of
    the two boxes. *)
Theorem single_hole_card_in_either_box (card_s : string)
    (community_card_vars : list string) (num_opponents_var : string)
    (shuffles : nat → list card) :
  calculate_odds card_s "" community_card_vars num_opponents_var shuffles
  = calculate_odds "" card_s community_card_vars num_opponents_var shuffles.
Proof.
  clear get_rank_class class_to_string.
  destruct (decide (card_s = "")) as [->|Hcard]; [done|].
  unfold calculate_odds, prepare_odds. rewrite !stated_pair.
  destruct (decide (card_s = "")); [done|].
  destruct (decide ("" = "")); [|done].
  cbn [app length Nat.eqb]. cbv zeta.
  rewrite (bool_decide_eq_true_2 (card_s ≠ "")) by done.
  rewrite (bool_decide_eq_false_2 ("" ≠ "")) by (intros Hne; by apply Hne).
  destruct (negb _); [done|].
  destruct (py_int num_opponents_var) as [num_opponents|]; [|done].
  destruct (negb _); [done|].
  cbn [call_player_hands call_community_cards call_num_total_players
       call_num_simulations].
  rewrite (run_simulation_hero [card_s; ""] [""; card_s]); [done|].
  rewrite !stated_pair.
  destruct (decide (card_s = "")); [done|].
  by destruct (decide ("" = "")).
Qed.

End Engine.

(** ** The card boxes of [app.py] *)

(** Lines 6 to 8. [sorted] is the sort of Python on texts: ascending in the
    order of the character codes. *)
Definition SUITS : list string := ["H"; "D"; "C"; "S"].
Definition RANKS : list string :=
  ["2"; "3"; "4"; "5"; "6"; "7"; "8"; "9"; "T"; "J"; "Q"; "K"; "A"].

Definition string_le (s1 s2 : string) : Prop := String.leb s1 s2 = true.

#[global] Instance string_le_dec : RelDecision string_le.
Proof. intros s1 s2. unfold string_le. apply _. Defined.

Definition sorted (texts : list string) : list string :=
  merge_sort string_le texts.

Definition DECK : list string := sorted (r ← RANKS; s ← SUITS; [r +:+ s]).

(** Lines 84 to 93: the selections of the two hole-card boxes and of the
    community boxes, without the empty ones. *)
Definition add_selected (selected : gset string) (val : string) : gset string :=
  if bool_decide (val ≠ "") then {[val]} ∪ selected else selected.

Definition get_all_selected_cards (your_card_vars community_card_vars : list string)
  : gset string :=
  foldl add_selected (foldl add_selected ∅ your_card_vars) community_card_vars.

(** Lines 111 to 115: the values offered by a box with the given selection.
    [list(...)] of a set is modelled by [elements]; the values read back
    from a box are taken to be the list assigned to it. *)
Definition combo_values (selected_cards_on_ui : gset string)
    (current_selection : string) : list string :=
  if bool_decide (current_selection ≠ "")
  then [""; current_selection]
       ++ sorted (elements (list_to_set DECK
                            ∖ (selected_cards_on_ui ∖ {[current_selection]})))
  else [""] ++ sorted (elements (list_to_set DECK ∖ selected_cards_on_ui)).

(** Lines 99 to 119: for every box, in the order of the window, the values
    it offers and its selection after the refresh. Line 119 is modelled by
    its assignment alone, without the callback that the assignment would
    trigger; it is shown below never to be executed. *)
Definition refresh_all_card_dropdown_values
    (your_card_vars community_card_vars : list string)
  : list (list string * string) :=
  let selected_cards_on_ui :=
    get_all_selected_cards your_card_vars community_card_vars in
  (fun current_selection =>
     let values := combo_values selected_cards_on_ui current_selection in
     (values,
      if bool_decide (current_selection ∉ values) then "" else current_selection))
  <$> (your_card_vars ++ community_card_vars).

(** Lines 190 to 204, for the card boxes: every selection is cleared, then
    the boxes are refreshed. The refreshes that the single assignments
    trigger are overwritten by the last one. *)
Definition reset_all (your_card_vars community_card_vars : list string)
  : list (list string * string) :=
  refresh_all_card_dropdown_values
    ((fun _ => "") <$> your_card_vars) ((fun _ => "") <$> community_card_vars).

Lemma ascii_compare_trans_le (a b c : ascii) :
  Ascii.compare a b ≠ Gt → Ascii.compare b c ≠ Gt → Ascii.compare a c ≠ Gt.
Proof.
  unfold Ascii.compare. rewrite !N.compare_le_iff. 
  intros. etrans; eauto.
Qed.

Lemma string_compare_cons (a b : ascii) (s1 s2 : string) :
  String.compare (String a s1) (String b s2)
  = match Ascii.compare a b with
    | Eq => String.compare s1 s2
    | o => o
    end.
Proof. reflexivity. Qed.

Lemma string_le_alt (s1 s2 : string) :
  string_le s1 s2 ↔ String.compare s1 s2 ≠ Gt.
Proof.
  unfold string_le, String.leb. destruct (String.compare s1 s2); split; done.
Qed.

#[global] Instance string_le_trans : Transitive string_le.
Proof.
  intros s1 s2 s3. rewrite !string_le_alt. revert s2 s3.
  induction s1 as [|a s1 IH]; intros [|b s2] [|c s3]; try done.
  rewrite !string_compare_cons.
  unfold Ascii.compare.
  destruct (N.compare_spec (N_of_ascii a) (N_of_ascii b)) as [Hab|Hab|Hab];
    destruct (N.compare_spec (N_of_ascii b) (N_of_ascii c)) as [Hbc|Hbc|Hbc];
    try done.
  - rewrite Hab, Hbc, N.compare_refl. apply IH.
  - intros _ _. rewrite Hab. by apply N.compare_lt_iff in Hbc as ->.
  - intros _ _. rewrite <- Hbc. by apply N.compare_lt_iff in Hab as ->.
  - intros _ _. assert (N_of_ascii a < N_of_ascii c)%N as Hac by lia.
    by apply N.compare_lt_iff in Hac as ->.
Qed.

#[global] Instance string_le_total : Total string_le.
Proof. intros s1 s2. apply String.leb_total. Qed.

#[global] Instance string_le_antisymm : AntiSymm (=) string_le.
Proof. intros s1 s2. apply String.leb_antisym. Qed.

Lemma sorted_Permutation (texts : list string) : sorted texts ≡ₚ texts.
Proof. apply merge_sort_Permutation. Qed.

Lemma sorted_Sorted (texts : list string) : Sorted string_le (sorted texts).
Proof. apply Sorted_merge_sort, _. Qed.

Lemma sorted_order_independent (l1 l2 : list string) :
  l1 ≡ₚ l2 → sorted l1 = sorted l2.
Proof.
  intros Hperm. apply (Sorted_unique string_le); [apply sorted_Sorted..|].
  by rewrite !sorted_Permutation.
Qed.

Lemma elem_of_add_selected (selected : gset string) (val c : string) :
  c ∈ add_selected selected val ↔ (c = val ∧ val ≠ "") ∨ c ∈ selected.
Proof.
  unfold add_selected. case_bool_decide; set_solver.
Qed.

Lemma elem_of_foldl_add_selected (vars : list string) (selected : gset string)
    (c : string) :
  c ∈ foldl add_selected selected vars ↔ c ∈ stated vars ∨ c ∈ selected.
Proof.
  revert selected. induction vars as [|val vars IH]; intros selected.
  { simpl. set_solver. }
  simpl. rewrite IH, elem_of_add_selected. unfold stated.
  destruct (decide (val = "")) as [->|Hval].
  - rewrite filter_cons_False by (intros Hne; by apply Hne). naive_solver.
  - rewrite filter_cons_True by done. set_solver.
Qed.

Lemma elem_of_get_all_selected_cards
    (your_card_vars community_card_vars : list string) (c : string) :
  c ∈ get_all_selected_cards your_card_vars community_card_vars
  ↔ c ≠ "" ∧ c ∈ your_card_vars ++ community_card_vars.
Proof.
  unfold get_all_selected_cards. rewrite !elem_of_foldl_add_selected.
  unfold stated. rewrite !list_elem_of_filter, elem_of_app. set_solver.
Qed.

Lemma elem_of_combo_values (selected_cards_on_ui : gset string)
    (current_selection c : string) :
  c ∈ combo_values selected_cards_on_ui current_selection
  ↔ c = "" ∨ c = current_selection
    ∨ (c ∈ DECK ∧ c ∉ selected_cards_on_ui).
Proof.
  unfold combo_values. case_bool_decide as Hcur.
  - rewrite elem_of_app, !elem_of_cons, elem_of_nil, sorted_Permutation,
      elem_of_elements, !elem_of_difference, elem_of_list_to_set,
      elem_of_singleton.
    destruct (decide (c = current_selection)); naive_solver.
  - rewrite elem_of_app, !elem_of_cons, elem_of_nil, sorted_Permutation,
      elem_of_elements, !elem_of_difference, elem_of_list_to_set.
    assert (current_selection = "") as -> by (by destruct (decide (current_selection = ""))).
    naive_solver.
Qed.

Lemma filter_StronglySorted (P : string → Prop) `{!∀ c, Decision (P c)}
    (texts : list string) :
  StronglySorted string_le texts → StronglySorted string_le (filter P texts).
Proof.
  induction 1 as [|c texts _ IH Hall]; [constructor|].
  destruct (decide (P c)).
  - rewrite filter_cons_True by done. constructor; [done|].
    apply Forall_forall. intros c' Hc'. apply list_elem_of_filter in Hc' as [_ Hc'].
    by eapply Forall_forall in Hall.
  - by rewrite filter_cons_False.
Qed.

Lemma DECK_NoDup : NoDup DECK.
Proof. apply (bool_decide_unpack _). by vm_compute. Qed.

Lemma DECK_nonempty_texts (c : string) : c ∈ DECK → c ≠ "".
Proof.
  intros Hc ->. revert Hc. apply (bool_decide_unpack _). by vm_compute.
Qed.

(** The sorted list of the deck cards outside a set is the deck, in its
    order, without the cards of the set: the order in which the set is
    listed has no effect. *)
Lemma sorted_deck_difference (excluded : gset string) :
  sorted (elements (list_to_set DECK ∖ excluded))
  = filter (fun c => c ∉ excluded) DECK.
Proof.
  apply (Sorted_unique string_le).
  - apply sorted_Sorted.
  - apply StronglySorted_Sorted, filter_StronglySorted.
    apply Sorted_StronglySorted; [apply _|apply sorted_Sorted].
  - rewrite sorted_Permutation. apply NoDup_Permutation.
    + apply NoDup_elements.
    + apply NoDup_filter, DECK_NoDup.
    + intros c. rewrite elem_of_elements, elem_of_difference,
        elem_of_list_to_set, list_elem_of_filter. tauto.
Qed.

(** X13. A refresh changes no selection: the safeguard of line 118 never
    fires, since every box offers the empty text first and its own
    selection, whatever it is. *)
Theorem refresh_keeps_selections
    (your_card_vars community_card_vars : list string) :
  refresh_all_card_dropdown_values your_card_vars community_card_vars
  = (fun current_selection =>
       (combo_values
          (get_all_selected_cards your_card_vars community_card_vars)
          current_selection,
        current_selection))
    <$> (your_card_vars ++ community_card_vars)
  ∧ ∀ selected_cards_on_ui current_selection,
      head (combo_values selected_cards_on_ui current_selection) = Some ""
      ∧ current_selection
        ∈ combo_values selected_cards_on_ui current_selection.
Proof.
  assert (∀ selected cur, cur ∈ combo_values selected cur) as Hin.
  { intros selected cur. apply elem_of_combo_values. auto. }
  split.
  - unfold refresh_all_card_dropdown_values. cbv zeta.
    apply list_fmap_ext. intros _ cur _.
    by rewrite bool_decide_eq_false_2 by (intros Hout; apply Hout, Hin).
  - intros selected cur. split; [|apply Hin].
    unfold combo_values. by case_bool_decide.
Qed.

(** X14. What a box offers after a refresh: the empty text, its own
    selection, and the cards of the deck that are selected in no box. A
    card selected in another box is not offered, unless it is the selection
    of the box itself as well. *)
Theorem cards_offered_by_a_box
    (your_card_vars community_card_vars : list string)
    (current_selection c : string) :
  (c ∈ combo_values (get_all_selected_cards your_card_vars community_card_vars)
                    current_selection
   ↔ c = "" ∨ c = current_selection
     ∨ (c ∈ DECK ∧ c ∉ your_card_vars ++ community_card_vars))
  ∧ (c ∈ your_card_vars ++ community_card_vars →
     c ≠ "" →
     (c ∈ combo_values
            (get_all_selected_cards your_card_vars community_card_vars)
            current_selection
      ↔ c = current_selection)).
Proof.
  rewrite elem_of_combo_values, elem_of_get_all_selected_cards.
  split.
  - split; [|naive_solver].
    intros [?|[?|[? Hsel]]]; [by left|by right; left|].
    destruct (decide (c = "")); [by left|]. right. right. naive_solver.
  - intros Hc Hne. naive_solver.
Qed.

(** X15. The values of a box in closed form: the empty text, the selection
    of the box when it has one, then the deck in its sorted order without
    the cards selected in other boxes. The sorted part does not depend on
    the order in which the set of cards is listed, and a selected card of
    the deck is listed twice in its own box. *)
Theorem values_in_deck_order (selected_cards_on_ui : gset string)
    (current_selection : string) :
  combo_values selected_cards_on_ui current_selection
  = "" :: (if decide (current_selection = "") then [] else [current_selection])
       ++ filter (fun c => c ∉ selected_cards_on_ui ∖ {[current_selection]})
                 DECK
  ∧ Sorted string_le
      (filter (fun c => c ∉ selected_cards_on_ui ∖ {[current_selection]}) DECK)
  ∧ (current_selection ∈ DECK →
     current_selection
     ∈ filter (fun c => c ∉ selected_cards_on_ui ∖ {[current_selection]}) DECK)
  ∧ ∀ listed,
      listed ≡ₚ elements (list_to_set DECK
                          ∖ (selected_cards_on_ui ∖ {[current_selection]})) →
      sorted listed
      = filter (fun c => c ∉ selected_cards_on_ui ∖ {[current_selection]}) DECK.
Proof.
  split_and!.
  - unfold combo_values. case_bool_decide as Hcur.
    + rewrite decide_False by done. by rewrite sorted_deck_difference.
    + assert (current_selection = "") as ->
        by (by destruct (decide (current_selection = ""))).
      rewrite decide_True by done.
      assert (list_to_set DECK ∖ selected_cards_on_ui
              = (list_to_set DECK ∖ (selected_cards_on_ui ∖ {[""]})
                 : gset string)) as ->.
      { apply set_eq. intros c.
        rewrite !elem_of_difference, elem_of_list_to_set, elem_of_singleton.
        split; [naive_solver|]. intros [Hdeck Hc]. split; [done|].
        intros Hsel. apply Hc. split; [done|]. intros ->.
        by eapply DECK_nonempty_texts. }
      by rewrite sorted_deck_difference.
  - apply StronglySorted_Sorted, filter_StronglySorted.
    apply Sorted_StronglySorted; [apply _|apply sorted_Sorted].
  - intros Hdeck. apply list_elem_of_filter. split; [|done]. set_solver.
  - intros listed Hlisted. rewrite <- sorted_deck_difference.
    by apply sorted_order_independent.
Qed.

(** X16. After a reset no card is selected and every box offers the empty
    text followed by the whole deck in its sorted order. *)
Theorem reset_offers_whole_deck
    (your_card_vars community_card_vars : list string) :
  reset_all your_card_vars community_card_vars
  = replicate (length your_card_vars + length community_card_vars)
              ("" :: DECK, "").
Proof.
  unfold reset_all, refresh_all_card_dropdown_values. cbv zeta.
  assert (∀ vars : list string,
            (fun _ => "") <$> vars = replicate (length vars) "") as Hempty.
  { intros vars. by apply const_fmap. }
  rewrite !Hempty.
  assert (get_all_selected_cards (replicate (length your_card_vars) "")
            (replicate (length community_card_vars) "") = ∅) as ->.
  { apply set_eq. intros c. rewrite elem_of_get_all_selected_cards.
    rewrite elem_of_app, !elem_of_replicate. set_solver. }
  rewrite <- replicate_add, fmap_replicate.
  assert (combo_values ∅ "" = "" :: DECK) as ->.
  { unfold combo_values.
    rewrite bool_decide_eq_false_2 by (intros Hne; by apply Hne).
    rewrite sorted_deck_difference. cbn [app]. apply (f_equal (cons "")).
    induction DECK as [|c deck IH]; [done|].
    rewrite filter_cons_True by set_solver. by rewrite IH. }
  by destruct (bool_decide _).
Qed.


(** The engine over the concrete library. *)
Definition poker_run_simulation := run_simulation parse_card poker_five_score.
Definition poker_get_hand_strength :=
  get_hand_strength parse_card poker_five_score poker_rank_class
                    poker_class_to_string.

Definition cards_of (strs : list string) : list card :=
  omap parse_card strs.


(** The shuffle that leaves the deck in its canonical order. *)
Definition unshuffled (k : nat) : list card := full_deck.

(** Eleven deals for two players who hold ace-king each: the first two
    boards give the first player the better flush, the others are split. *)
Definition flush_board : list card := cards_of ["2h"; "5h"; "7h"; "9h"; "Jc"].
Definition split_board : list card := cards_of ["2c"; "5h"; "7d"; "9s"; "Jc"].

Definition two_wins_then_ties (k : nat) : list card :=
  if (k <? 2)%nat then deck_starting_with flush_board
  else deck_starting_with split_board.


(** The known cards of a call whose validation succeeds. *)
Definition validated (player_hands_str_initial : list (list string))
    (community_cards_str_initial : list string) (num_total_players : Z)
  : known :=
  match validate parse_card player_hands_str_initial
                 community_cards_str_initial num_total_players with
  | Ok v => v
  | Raise _ => Known [] [] ∅
  end.

(** ** The properties on concrete calls *)

Lemma unshuffled_permutation (k : nat) : unshuffled k ≡ₚ full_deck.
Proof. reflexivity. Defined.

Lemma two_wins_then_ties_permutation (k : nat) :
  two_wins_then_ties k ≡ₚ full_deck.
Proof.
  unfold two_wins_then_ties. destruct (k <? 2)%nat;
    apply (bool_decide_unpack _); vm_compute; exact I.
Qed.


Lemma C2_witness :
  [5; 3; 3] ≠ []
  ∧ length [Counters 0 0; Counters 1 0; Counters 0 2] = length [5; 3; 3]
  ∧ ∃ min_score,
      py_min [5; 3; 3] = Ok min_score
      ∧ score_trial [5; 3; 3] [Counters 0 0; Counters 1 0; Counters 0 2]
        = Ok [Counters 0 0; Counters 1 1; Counters 0 3].
Proof.
  assert ([5; 3; 3] ≠ []) as H1 by discriminate.
  assert (length [Counters 0 0; Counters 1 0; Counters 0 2]
          = length [5; 3; 3]) as H2 by reflexivity.
  destruct (C2_winners_and_counters _ _ H1 H2)
    as (m & r & Hmin & _ & _ & _ & _ & Htrial & _).
  split; [exact H1|]. split; [exact H2|]. exists m. split; [exact Hmin|].
  rewrite Htrial. vm_compute in Htrial. injection Htrial as <-. reflexivity.
Defined.

Lemma C3_witness :
  (length (cards_of ["2c"; "7d"; "9s"; "Jh"; "Qd"] ++ cards_of ["Ah"; "Kd"])
   = 6
   ∨ length (cards_of ["2c"; "7d"; "9s"; "Jh"; "Qd"] ++ cards_of ["Ah"; "Kd"])
     = 7)%nat
  ∧ NoDup (cards_of ["2c"; "7d"; "9s"; "Jh"; "Qd"] ++ cards_of ["Ah"; "Kd"])
  ∧ ∃ best,
      evaluate poker_five_score (cards_of ["2c"; "7d"; "9s"; "Jh"; "Qd"])
               (cards_of ["Ah"; "Kd"])
      = Ok (poker_five_score best)
      ∧ brute_force_score poker_five_score
          (cards_of ["2c"; "7d"; "9s"; "Jh"; "Qd"] ++ cards_of ["Ah"; "Kd"])
        = Ok (poker_five_score best).
Proof.
  assert (length (cards_of ["2c"; "7d"; "9s"; "Jh"; "Qd"]
                  ++ cards_of ["Ah"; "Kd"]) = 6
          ∨ length (cards_of ["2c"; "7d"; "9s"; "Jh"; "Qd"]
                    ++ cards_of ["Ah"; "Kd"]) = 7)%nat as H1
    by (right; reflexivity).
  assert (NoDup (cards_of ["2c"; "7d"; "9s"; "Jh"; "Qd"]
                 ++ cards_of ["Ah"; "Kd"])) as H2
    by (apply (bool_decide_unpack _); vm_compute; exact I).
  destruct (C3_best_of_five_card_subsets parse_card poker_five_score
              poker_rank_class poker_class_to_string _ _ H1 H2)
    as (best & Heval & _ & _ & _ & Hbrute & _).
  split; [exact H1|]. split; [exact H2|]. exists best. by split.
Defined.

Lemma C4_witness :
  known_texts [["As"; "Kd"]; ["As"; "Qc"]] [] 2 = ["As"; "Kd"; "As"] ++ ["Qc"]
  ∧ Forall (valid_text parse_card) ["As"; "Kd"; "As"]
  ∧ ¬ NoDup (texts_cards parse_card ["As"; "Kd"; "As"])
  ∧ ∃ card_s,
      poker_run_simulation [["As"; "Kd"]; ["As"; "Qc"]] [] 2 100 unshuffled
      = (Raise (DuplicateCard card_s), 0%nat).
Proof.
  assert (known_texts [["As"; "Kd"]; ["As"; "Qc"]] [] 2
          = ["As"; "Kd"; "As"] ++ ["Qc"]) as H1 by reflexivity.
  assert (Forall (valid_text parse_card) ["As"; "Kd"; "As"]) as H2
    by (repeat constructor; eexists; reflexivity).
  assert (¬ NoDup (texts_cards parse_card ["As"; "Kd"; "As"])) as H3
    by (apply (bool_decide_unpack _); vm_compute; exact I).
  destruct (C4_duplicate_known_card_rejected parse_card poker_five_score
              _ _ _ 100 unshuffled _ _ H1 H2 H3)
    as (_ & card_s & _ & _ & _ & _ & _ & _ & Hrun).
  split; [exact H1|]. split; [exact H2|]. split; [exact H3|].
  exists card_s. exact Hrun.
Defined.

Lemma C5_witness :
  poker_run_simulation [["Ah"; "Kd"]; ["Ad"; "Kh"]] [] 2 11 two_wins_then_ties
  = (Ok [percentages_of 11 (Counters 2 9); percentages_of 11 (Counters 0 9)],
     11%nat)
  ∧ ∃ counts,
      [percentages_of 11 (Counters 2 9); percentages_of 11 (Counters 0 9)]
      = percentages_of 11 <$> counts
      ∧ (∀ i res, counts !! i = Some res → wins res + ties res ≤ 11)
      ∧ 0 ≤ total_wins counts ≤ 11.
Proof.
  assert (poker_run_simulation [["Ah"; "Kd"]; ["Ad"; "Kh"]] [] 2 11
            two_wins_then_ties
          = (Ok [percentages_of 11 (Counters 2 9);
                 percentages_of 11 (Counters 0 9)], 11%nat)) as H1
    by (vm_compute; reflexivity).
  destruct (C5_percentages_from_counters parse_card poker_five_score
              _ _ _ _ _ _ _ H1)
    as (v & counts & _ & _ & _ & _ & _ & Hfinal & Hcounts & Htotal).
  split; [exact H1|]. exists counts. split; [exact Hfinal|]. split; [|exact Htotal].
  intros i res Hres. destruct (Hcounts i res Hres) as (_ & _ & _ & Hle).
  exact Hle.
Defined.

Lemma C6_witness :
  Forall (valid_text parse_card)
    (known_texts [["Ah"; "Kd"]] ["2c"; "3c"; "4c"; "5c"; "6c"; "7c"] 2)
  ∧ NoDup (texts_cards parse_card
             (known_texts [["Ah"; "Kd"]]
                          ["2c"; "3c"; "4c"; "5c"; "6c"; "7c"] 2))
  ∧ poker_run_simulation [["Ah"; "Kd"]] ["2c"; "3c"; "4c"; "5c"; "6c"; "7c"]
                         2 1 unshuffled
    = (Raise TooManyCommunityCards, 0%nat).
Proof.
  assert (Forall (valid_text parse_card)
            (known_texts [["Ah"; "Kd"]]
                         ["2c"; "3c"; "4c"; "5c"; "6c"; "7c"] 2)) as H1
    by (repeat constructor; eexists; reflexivity).
  assert (NoDup (texts_cards parse_card
                   (known_texts [["Ah"; "Kd"]]
                                ["2c"; "3c"; "4c"; "5c"; "6c"; "7c"] 2))) as H2
    by (apply (bool_decide_unpack _); vm_compute; exact I).
  destruct (C6_community_count_checked_above_five parse_card poker_five_score
              _ _ _ 1 unshuffled H1 H2) as [Hmany _].
  split; [exact H1|]. split; [exact H2|]. apply Hmany. vm_compute. lia.
Defined.

Lemma C7_witness :
  is_Ok (validate parse_card [["Ah"; ""]] [] 2).
Proof.
  destruct (C7_single_hole_card_is_completed parse_card [["Ah"; ""]] [] 2)
    as [Hvalidate _].
  apply Hvalidate.
  - repeat constructor; eexists; reflexivity.
  - apply (bool_decide_unpack _); vm_compute; exact I.
  - vm_compute. lia.
Defined.

Lemma C8_witness :
  validate parse_card [["Ah"; "Kd"]] [] 1 = Ok (validated [["Ah"; "Kd"]] [] 1)
  ∧ (∀ k, unshuffled k ≡ₚ full_deck)
  ∧ (∀ p, (p < range_len 1)%nat →
          (length (stated (entry_of [["Ah"; "Kd"]] p)) ≤ 2)%nat)
  ∧ ∃ final,
      poker_run_simulation [["Ah"; "Kd"]] [] 1 3 unshuffled
      = (Ok final, range_len 3)
      ∧ length final = range_len 1.
Proof.
  assert (validate parse_card [["Ah"; "Kd"]] [] 1
          = Ok (validated [["Ah"; "Kd"]] [] 1)) as H1 by reflexivity.
  assert (∀ p, (p < range_len 1)%nat →
               (length (stated (entry_of [["Ah"; "Kd"]] p)) ≤ 2)%nat) as H3.
  { intros p Hp. destruct p as [|p]; [vm_compute; lia|vm_compute in Hp; lia]. }
  destruct (C8_player_and_trial_counts_not_checked parse_card
              poker_five_score _ _ _ 3 unshuffled _
              H1 unshuffled_permutation H3) as [Hcompletes _].
  split; [exact H1|]. split; [exact unshuffled_permutation|].
  split; [exact H3|]. apply Hcompletes; lia.
Defined.

Lemma C9_witness :
  parse_cards parse_card ["As"; "As"] = Ok (cards_of ["As"; "As"])
  ∧ parse_cards parse_card ["Kd"; "Qc"; "2h"] = Ok (cards_of ["Kd"; "Qc"; "2h"])
  ∧ poker_get_hand_strength ["As"; "As"] ["Kd"; "Qc"; "2h"]
    = Raise DuplicateCardInHand.
Proof.
  assert (parse_cards parse_card ["As"; "As"] = Ok (cards_of ["As"; "As"]))
    as H1 by reflexivity.
  assert (parse_cards parse_card ["Kd"; "Qc"; "2h"]
          = Ok (cards_of ["Kd"; "Qc"; "2h"])) as H2 by reflexivity.
  destruct (C9_hand_strength_rejections parse_card poker_five_score
              poker_rank_class poker_class_to_string _ _ _ _ H1 H2)
    as (_ & _ & _ & Hdup & _).
  split; [exact H1|]. split; [exact H2|]. apply Hdup.
  - reflexivity.
  - vm_compute. lia.
  - apply (bool_decide_unpack _). vm_compute. exact I.
Defined.

Lemma C10_witness :
  poker_run_simulation [["Ah"; "Kd"]; []; ["Ah"; "Zz"]] [] 2 1 unshuffled
  = poker_run_simulation [["Ah"; "Kd"]; []] [] 2 1 unshuffled.
Proof.
  destruct (C10_only_first_entries_used parse_card poker_five_score
              [["Ah"; "Kd"]; []; ["Ah"; "Zz"]] [] 2 1 unshuffled)
    as [Hcut _].
  exact Hcut.
Defined.

(** ** Calls on which the specification and the code differ *)

(** C4, counterexample. A card that appears twice does not always give the
    duplicate-card error. With a text that is no card before the second
    appearance, the call fails with the error of that text; with the second
    appearance in an entry beyond the players of the call, the repetition is
    not read and the call completes. *)
Lemma C4_repeated_card_without_duplicate_error :
  poker_run_simulation [["Zz"]; ["As"; "As"]] [] 2 100 unshuffled
  = (Raise (InvalidCard "Zz"), 0%nat)
  ∧ poker_run_simulation [["As"; "Kd"]; ["As"; "Qc"]] [] 1 3 unshuffled
    = (Ok [percentages_of 3 (Counters 3 0)], 3%nat).
Proof. split; vm_compute; reflexivity. Qed.

(** C5, counterexample. Two players, eleven trials, of which the first
    player wins two and ties nine: his two percentages, 18.181818181818183
    and 81.81818181818183, add up to 100.00000000000001. *)
Lemma C5_percentages_sum_above_100 :
  (∀ k, two_wins_then_ties k ≡ₚ full_deck)
  ∧ poker_run_simulation [["Ah"; "Kd"]; ["Ad"; "Kh"]] [] 2 11
                         two_wins_then_ties
    = (Ok [percentages_of 11 (Counters 2 9); percentages_of 11 (Counters 0 9)],
       11%nat)
  ∧ PrimFloat.ltb (float_of_Z 100)
      (PrimFloat.add (wins_pct (percentages_of 11 (Counters 2 9)))
                     (ties_pct (percentages_of 11 (Counters 2 9))))
    = true.
Proof.
  split; [exact two_wins_then_ties_permutation|].
  split; vm_compute; reflexivity.
Qed.

(** C6, counterexample. One known community card: the call is not rejected,
    it runs its trial and returns the two entries. *)
Lemma C6_one_community_card_accepted :
  length (stated ["2c"]) = 1%nat
  ∧ poker_run_simulation [["Ah"; "Kd"]] ["2c"] 2 1 unshuffled
    = (Ok [percentages_of 1 (Counters 0 0); percentages_of 1 (Counters 1 0)],
       1%nat).
Proof. split; vm_compute; reflexivity. Qed.

(** C7, counterexample. One known hole card for the first player: the call
    is not rejected, it runs its trial and returns the two entries. *)
Lemma C7_one_hole_card_accepted :
  length (stated ["Ah"; ""]) = 1%nat
  ∧ poker_run_simulation [["Ah"; ""]] [] 2 1 unshuffled
    = (Ok [percentages_of 1 (Counters 1 0); percentages_of 1 (Counters 0 0)],
       1%nat).
Proof. split; vm_compute; reflexivity. Qed.

(** C8, counterexample. Ten players, a single player, and a negative number
    of simulations: none of the three calls fails. *)
Lemma C8_counts_out_of_range_accepted :
  poker_run_simulation [["Ah"; "Kd"]] [] 10 1 unshuffled
  = (Ok (replicate 9 (percentages_of 1 (Counters 0 0))
         ++ [percentages_of 1 (Counters 1 0)]), 1%nat)
  ∧ poker_run_simulation [["Ah"; "Kd"]] [] 1 1 unshuffled
    = (Ok [percentages_of 1 (Counters 1 0)], 1%nat)
  ∧ poker_run_simulation [["Ah"; "Kd"]] [] 2 (-3) unshuffled
    = (Ok [percentages_of (-3) (Counters 0 0);
           percentages_of (-3) (Counters 0 0)], 0%nat).
Proof. split_and!; vm_compute; reflexivity. Qed.

(** C9, counterexample. Six cards of which two are equal, three of them
    given as hole cards: the failure is the error for the number of hole
    cards, not the duplicate-card error. *)
Lemma C9_duplicate_with_three_hole_cards :
  parse_cards parse_card ["As"; "As"; "Kd"] = Ok (cards_of ["As"; "As"; "Kd"])
  ∧ parse_cards parse_card ["2c"; "3c"; "4c"] = Ok (cards_of ["2c"; "3c"; "4c"])
  ∧ length (cards_of ["2c"; "3c"; "4c"] ++ cards_of ["As"; "As"; "Kd"]) = 6%nat
  ∧ ¬ NoDup (cards_of ["2c"; "3c"; "4c"] ++ cards_of ["As"; "As"; "Kd"])
  ∧ poker_get_hand_strength ["As"; "As"; "Kd"] ["2c"; "3c"; "4c"]
    = Raise HoleCardsNotTwo
  ∧ HoleCardsNotTwo ≠ DuplicateCardInHand.
Proof.
  split_and!; try reflexivity; try discriminate.
  apply (bool_decide_unpack _). vm_compute. exact I.
Qed.

(** ** The further properties on concrete calls *)

(** [int] of Python on a text of decimal digits, which is all the examples
    use; any other text is refused here. *)
Definition digit_of_ascii (a : ascii) : option Z :=
  let n := Z.of_N (N_of_ascii a) in
  if (48 <=? n) && (n <=? 57) then Some (n - 48) else None.

Fixpoint decimal_digits (acc : Z) (text : string) : option Z :=
  match text with
  | EmptyString => Some acc
  | String a text' =>
      match digit_of_ascii a with
      | Some d => decimal_digits (10 * acc + d) text'
      | None => None
      end
  end.

Definition decimal_int (text : string) : option Z :=
  if bool_decide (text = "") then None else decimal_digits 0 text.

Definition poker_calculate_odds :=
  calculate_odds parse_card poker_five_score decimal_int.

Lemma invalid_known_text_rejected_witness :
  known_texts [["Ah"; "Zz"]] ["2c"] 2 = ["Ah"] ++ "Zz" :: ["2c"]
  ∧ poker_run_simulation [["Ah"; "Zz"]] ["2c"] 2 100 unshuffled
    = (Raise (InvalidCard "Zz"), 0%nat).
Proof.
  assert (known_texts [["Ah"; "Zz"]] ["2c"] 2 = ["Ah"] ++ "Zz" :: ["2c"])
    as H1 by reflexivity.
  assert (Forall (valid_text parse_card) ["Ah"]) as H2
    by (repeat constructor; eexists; reflexivity).
  assert (NoDup (texts_cards parse_card ["Ah"])) as H3
    by (apply (bool_decide_unpack _); vm_compute; exact I).
  assert (card_str_to_deuces_card parse_card "Zz" = Raise (InvalidCard "Zz"))
    as H4 by reflexivity.
  destruct (invalid_known_text_rejected parse_card poker_five_score
              _ _ _ 100 unshuffled _ _ _ _ H1 H2 H3 H4) as [Hrun _].
  exact (conj H1 Hrun).
Defined.

Lemma every_trial_counted_once_witness :
  poker_run_simulation [["Ah"; "Kd"]; ["Ad"; "Kh"]] [] 2 11 two_wins_then_ties
  = (Ok [percentages_of 11 (Counters 2 9); percentages_of 11 (Counters 0 9)],
     11%nat)
  ∧ ∃ counts,
      [percentages_of 11 (Counters 2 9); percentages_of 11 (Counters 0 9)]
      = percentages_of 11 <$> counts
      ∧ 0 ≤ total_wins counts ≤ 11
      ∧ 2 * (11 - total_wins counts) ≤ total_ties counts
      ∧ total_ties counts ≤ 2 * (11 - total_wins counts).
Proof.
  assert (poker_run_simulation [["Ah"; "Kd"]; ["Ad"; "Kh"]] [] 2 11
            two_wins_then_ties
          = (Ok [percentages_of 11 (Counters 2 9);
                 percentages_of 11 (Counters 0 9)], 11%nat)) as H1
    by (vm_compute; reflexivity).
  destruct (every_trial_counted_once parse_card poker_five_score
              _ _ _ _ _ _ _ H1)
    as (v & counts & _ & _ & Hfinal & Hwins & Hlow & Hhigh).
  split; [exact H1|]. exists counts.
  exact (conj Hfinal (conj Hwins (conj Hlow Hhigh))).
Defined.

Lemma cards_dealt_in_player_order_witness :
  ∃ sim_player_hands sim_community_cards rest,
    deal_trial (validated [["Ah"]; []] ["2c"; "7d"; "9s"] 2) (unshuffled 0)
    = Ok (sim_player_hands, sim_community_cards, rest)
    ∧ sim_community_cards
      = cards_of ["2c"; "7d"; "9s"]
        ++ take 2 (drop 3 (restrict_deck
                             (known_cards_deuces
                                (validated [["Ah"]; []] ["2c"; "7d"; "9s"] 2))
                             (unshuffled 0))).
Proof.
  destruct (deal_trial (validated [["Ah"]; []] ["2c"; "7d"; "9s"] 2)
              (unshuffled 0)) as [[[hs cc] rest]|e] eqn:H1;
    [|vm_compute in H1; discriminate H1].
  destruct (cards_dealt_in_player_order _ _ _ _ _ H1) as (_ & Hboard & _).
  exists hs, cc, rest. split; [reflexivity|]. exact Hboard.
Defined.

Lemma hand_strength_invalid_text_witness :
  ["As"; ""] ++ ["Kd"; "Qc"; "2h"] = ["As"] ++ "" :: ["Kd"; "Qc"; "2h"]
  ∧ poker_get_hand_strength ["As"; ""] ["Kd"; "Qc"; "2h"]
    = Raise (InvalidCardFormat "").
Proof.
  assert (["As"; ""] ++ ["Kd"; "Qc"; "2h"]
          = ["As"] ++ "" :: ["Kd"; "Qc"; "2h"]) as H1 by reflexivity.
  assert (Forall (valid_text parse_card) ["As"]) as H2
    by (repeat constructor; eexists; reflexivity).
  assert (card_str_to_deuces_card parse_card "" = Raise (InvalidCardFormat ""))
    as H3 by reflexivity.
  destruct (hand_strength_invalid_text parse_card poker_five_score
              poker_rank_class poker_class_to_string
              ["As"; ""] ["Kd"; "Qc"; "2h"] _ _ _ _
              eq_refl (ltac:(simpl; lia)) H1 H2 H3) as [Hrun _].
  exact (conj H1 Hrun).
Defined.

Lemma odds_errors_come_from_selected_texts_witness :
  poker_calculate_odds "Ah" "" ["Ah"; "7d"; "9s"; ""; ""] "3" unshuffled
    ≠ ShowNoResult
  ∧ ∀ e,
      poker_calculate_odds "Ah" "" ["Ah"; "7d"; "9s"; ""; ""] "3" unshuffled
      = ShowError e →
      ∃ card_s,
        card_s ∈ stated ["Ah"; ""] ++ stated ["Ah"; "7d"; "9s"; ""; ""]
        ∧ (e = InvalidCardFormat card_s ∨ e = InvalidCard card_s
           ∨ e = DuplicateCard card_s).
Proof.
  exact (odds_errors_come_from_selected_texts parse_card poker_five_score
           decimal_int "Ah" "" ["Ah"; "7d"; "9s"; ""; ""] "3" unshuffled
           unshuffled_permutation).
Defined.

Lemma odds_shown_iff_witness :
  decimal_int "3" = Some 3
  ∧ ∃ hero_results,
      poker_calculate_odds "Ah" "" ["2c"; "7d"; "9s"; ""; ""] "3" unshuffled
      = ShowOdds hero_results.
Proof.
  split; [reflexivity|].
  destruct (odds_shown_iff parse_card poker_five_score decimal_int
              "Ah" "" ["2c"; "7d"; "9s"; ""; ""] "3" unshuffled
              unshuffled_permutation) as [[_ Hshown] _].
  apply Hshown. split; [discriminate|].
  split; [apply (bool_decide_unpack _); vm_compute; exact I|].
  split; [exists 3; split; [reflexivity|lia]|].
  split; [repeat constructor; eexists; reflexivity|].
  apply (bool_decide_unpack _). vm_compute. exact I.
Defined.
